(** * GrassClient: the connection supervisor of [src/client.js]

    A shallow embedding of the [GrassClient] class.  The object's fields
    are a record, every method is a computation in a small monad that
    threads the object, the trace of observable effects (calls on the
    transport, timers, log lines) and a possible rejection.  Whatever the
    platform decides (which transport event fires first, whether a write
    completes, the clock, fresh identifiers, the result of [new URL] and
    [JSON.parse]) is an explicit input of the method that consults it. *)

From Stdlib Require Import ZArith String List Bool Lia.
Import ListNotations.

Set Warnings "-register-all".

Open Scope Z_scope.
Open Scope string_scope.

(** ** Values of the host language *)

(** A thrown or rejected [Error]; the code only ever reads [message]. *)
Record Error : Type := mkError { message : string }.

(** The values that travel as JSON.  Numbers are the integral ones, the
    only kind the client builds ([Math.floor] of the clock). *)
Inductive Value : Type :=
| VUndefined
| VNull
| VBool (b : bool)
| VNum (n : Z)
| VStr (s : string)
| VArr (items : list Value)
| VObj (fields : list (string * Value)).

(** Own property of an object literal, [undefined] when missing. *)
Fixpoint lookup (k : string) (fields : list (string * Value)) : Value :=
  match fields with
  | [] => VUndefined
  | (k', v) :: rest => if String.eqb k k' then v else lookup k rest
  end.

(** [v.k] for a key that no primitive wrapper defines (such as [id]):
    a [TypeError] on [null] and [undefined], [undefined] on the other
    primitives and on arrays. *)
Definition getProp (v : Value) (k : string) : Error + Value :=
  match v with
  | VObj fields => inr (lookup k fields)
  | VNull =>
      inl (mkError ("Cannot read properties of null (reading '" ++ k ++ "')"))
  | VUndefined =>
      inl (mkError
             ("Cannot read properties of undefined (reading '" ++ k ++ "')"))
  | _ => inr VUndefined
  end.

(** ** The transport, as the client sees it *)

Inductive ReadyState : Type := CONNECTING | OPEN | CLOSING | CLOSED.

Definition ReadyState_eqb (a b : ReadyState) : bool :=
  match a, b with
  | CONNECTING, CONNECTING | OPEN, OPEN | CLOSING, CLOSING | CLOSED, CLOSED =>
      true
  | _, _ => false
  end.

(** The handle [this.ws] points to; [readyState] is all the client reads. *)
Record WebSocket : Type := mkWebSocket { readyState : ReadyState }.

(** The result of [new URL(this.proxy)], restricted to the read fields. *)
Record URL : Type := mkURL {
  protocol : string;
  hostname : string;
  port : string;
  username : string;
  password : string
}.

(** The options object handed to [HttpsProxyAgent]. *)
Record AgentOptions : Type := mkAgent {
  agent_protocol : string;
  agent_host : string;
  agent_port : string;
  agent_auth : option string;
  rejectUnauthorized : bool;
  agent_timeout : Z;
  keepAlive : bool;
  keepAliveMsecs : Z
}.

(** The options object handed to [new WebSocket]. *)
Record WsOptions : Type := mkOptions {
  headers : list (string * string);
  handshakeTimeout : Z;
  followRedirects : bool;
  maxPayload : Z;
  perMessageDeflate : bool;
  agent : option AgentOptions
}.

(** The handle returned by [setInterval]. *)
Definition Timer : Type := nat.

Inductive Level : Type := Info | Warn | Err.

Inductive EventName : Type := EvOpen | EvError | EvClose | EvMessage | EvPong.

(** ** Observable effects *)

Inductive Action : Type :=
| Log (lvl : Level) (msg : string)
| NewWebSocket (url : string) (options : WsOptions)
| WsOnce (ev : EventName)
| WsOn (ev : EventName)
| WsSend (payload : Value)          (* ws.send(JSON.stringify(payload), cb) *)
| WsTerminate
| WsClose
| WsRemoveAllListeners
| SetTimeout (ms : Z)
| ClearTimeout
| SetInterval (t : Timer) (ms : Z)
| ClearInterval (t : Timer)
| Sleep (ms : Z)                    (* await of a bare setTimeout promise *)
| UnhandledRejection (e : Error)    (* a timer callback's promise rejects *)
| UncaughtException (e : Error).    (* an error event finds no observer *)

(** ** The object *)

Record GrassClient : Type := mkClient {
  userId : string;
  proxy : option string;            (* [null] or a string *)
  ws : option WebSocket;
  browserId : string;
  heartbeatInterval : option Timer;
  reconnectDelay : Z;
  connectionTimeout : Z;
  lastHeartbeat : Z
}.

Definition set_ws (w : option WebSocket) (c : GrassClient) : GrassClient :=
  mkClient (userId c) (proxy c) w (browserId c) (heartbeatInterval c)
           (reconnectDelay c) (connectionTimeout c) (lastHeartbeat c).

Definition set_heartbeatInterval (t : option Timer) (c : GrassClient)
  : GrassClient :=
  mkClient (userId c) (proxy c) (ws c) (browserId c) t
           (reconnectDelay c) (connectionTimeout c) (lastHeartbeat c).

Definition set_lastHeartbeat (t : Z) (c : GrassClient) : GrassClient :=
  mkClient (userId c) (proxy c) (ws c) (browserId c) (heartbeatInterval c)
           (reconnectDelay c) (connectionTimeout c) t.

(** [constructor(userId, proxy = null)]; [uuid] is what [uuidv4()] returns
    and [now] what [Date.now()] returns. *)
Definition constructor (uid : string) (prx : option string)
           (uuid : string) (now : Z) : GrassClient :=
  {| userId := uid;
     proxy := prx;
     ws := None;
     browserId := uuid;
     heartbeatInterval := None;
     reconnectDelay := 10000;
     connectionTimeout := 30000;
     lastHeartbeat := now |}.

(** ** The monad of methods *)

Inductive Outcome (A : Type) : Type :=
| Resolve (a : A)
| Reject (e : Error).
Arguments Resolve {A} a.
Arguments Reject {A} e.

Definition M (A : Type) : Type :=
  GrassClient -> Outcome A * GrassClient * list Action.

Definition ret {A} (a : A) : M A := fun c => (Resolve a, c, []).

Definition throw {A} (e : Error) : M A := fun c => (Reject e, c, []).

Definition bind {A B} (m : M A) (f : A -> M B) : M B :=
  fun c =>
    match m c with
    | (Resolve a, c1, t1) =>
        match f a c1 with
        | (r, c2, t2) => (r, c2, (t1 ++ t2)%list)
        end
    | (Reject e, c1, t1) => (Reject e, c1, t1)
    end.

(** [try { m } catch (error) { h error }] *)
Definition try_catch {A} (m : M A) (h : Error -> M A) : M A :=
  fun c =>
    match m c with
    | (Reject e, c1, t1) =>
        match h e c1 with
        | (r, c2, t2) => (r, c2, (t1 ++ t2)%list)
        end
    | settled => settled
    end.

Definition this : M GrassClient := fun c => (Resolve c, c, []).

Definition assign (f : GrassClient -> GrassClient) : M unit :=
  fun c => (Resolve tt, f c, []).

Definition emit (a : Action) : M unit := fun c => (Resolve tt, c, [a]).

Declare Scope js_scope.
Delimit Scope js_scope with js.
Notation "x <- m ;; k" := (bind m (fun x => k))
  (at level 61, m at next level, right associativity) : js_scope.
Notation "m ;; k" := (bind m (fun _ => k))
  (at level 61, right associativity) : js_scope.
Open Scope js_scope.

Definition outcome {A} (r : Outcome A * GrassClient * list Action)
  : Outcome A := fst (fst r).
Definition final {A} (r : Outcome A * GrassClient * list Action)
  : GrassClient := snd (fst r).
Definition trace {A} (r : Outcome A * GrassClient * list Action)
  : list Action := snd r.

(** ** What else runs while a method is suspended

    The object is shared with the other callbacks of the class.  While a
    method awaits, the pong observer registered by [start] may write the
    liveness timestamp, the transport may change state, and [start] may
    resume on the close event and run [cleanup]. *)
Inductive Interference : Type :=
| PongObserved (now : Z)
| TransportBecomes (rs : ReadyState)
| CleanupRan.

Definition becomes (rs : ReadyState) (c : GrassClient) : GrassClient :=
  match ws c with
  | Some _ => set_ws (Some (mkWebSocket rs)) c
  | None => c
  end.

Definition interfere1 (i : Interference) (c : GrassClient) : GrassClient :=
  match i with
  | PongObserved now => set_lastHeartbeat now c
  | TransportBecomes rs => becomes rs c
  | CleanupRan => set_ws None (set_heartbeatInterval None c)
  end.

Definition interfered (l : list Interference) (c : GrassClient)
  : GrassClient :=
  fold_left (fun c i => interfere1 i c) l c.

Definition interfere (l : list Interference) : M unit :=
  assign (interfered l).

(** [this.ws?.readyState === WebSocket.OPEN] *)
Definition isOpen (c : GrassClient) : bool :=
  match ws c with
  | Some w => ReadyState_eqb (readyState w) OPEN
  | None => false
  end.

(** ** sendMessage *)

(** How the write ends: the callback of [ws.send] runs before the 10 s
    timer (with or without an error), or the timer runs first. *)
Inductive Completion : Type :=
| Completed (err : option Error)
| NotInTime.

Record SendEnv : Type := mkSendEnv {
  completion : Completion;
  meanwhile : list Interference
}.

Definition sendMessage (payload : Value) (env : SendEnv) : M unit :=
  c <- this ;;
  if negb (isOpen c) then
    throw (mkError "WebSocket not connected")
  else
    emit (SetTimeout 10000) ;;
    emit (WsSend payload) ;;
    interfere (meanwhile env) ;;
    match completion env with
    | Completed None => emit ClearTimeout ;; ret tt
    | Completed (Some e) => emit ClearTimeout ;; throw e
    | NotInTime => throw (mkError "Send message timeout")
    end.

(** ** cleanup *)

Definition cleanup : M unit :=
  c <- this ;;
  match heartbeatInterval c with
  | Some t =>
      emit (ClearInterval t) ;;
      assign (set_heartbeatInterval None)
  | None => ret tt
  end ;;
  c <- this ;;
  match ws c with
  | Some w =>
      emit WsRemoveAllListeners ;;
      (if ReadyState_eqb (readyState w) OPEN then emit WsClose else ret tt) ;;
      assign (set_ws None)
  | None => ret tt
  end.

(** ** connect *)

Definition userAgent : string :=
  "Mozilla/5.0 (Windows NT 10.0; Win64; x64) AppleWebKit/537.36 (KHTML, like Gecko) Chrome/114.0.0.0 Safari/537.36".

Definition endpoint : string := "wss://proxy2.wynd.network:4650".

Definition upgradeHeaders : list (string * string) :=
  [ ("Host", "proxy2.wynd.network:4650");
    ("Connection", "Upgrade");
    ("Pragma", "no-cache");
    ("Cache-Control", "no-cache");
    ("User-Agent", userAgent);
    ("Upgrade", "websocket");
    ("Origin", "https://app.getgrass.io");
    ("Sec-WebSocket-Version", "13");
    ("Accept-Language", "en-US,en;q=0.9") ].

(** Truthiness of a string: the empty string is falsy. *)
Definition truthy (s : string) : bool := negb (String.eqb s "").

(** Truthiness of [this.proxy]: [null] and the empty string are falsy. *)
Definition proxyConfigured (c : GrassClient) : bool :=
  match proxy c with
  | Some p => truthy p
  | None => false
  end.

(** [`${this.proxy}`] *)
Definition showProxy (c : GrassClient) : string :=
  match proxy c with
  | Some p => p
  | None => "null"
  end.

Definition liftE {A} (r : Error + A) : M A :=
  match r with
  | inl e => throw e
  | inr a => ret a
  end.

(** Which of the three armed callbacks of [connect] runs first: the open
    observer (at clock reading [at_]), the error observer, or the timer. *)
Inductive ConnectEvent : Type :=
| Opened (at_ : Z)
| Errored (e : Error)
| NothingInTime.

Record ConnectEnv : Type := mkConnectEnv {
  parsedProxy : Error + URL;                    (* new URL(this.proxy) *)
  decodeURIComponent : string -> Error + string;
  firstEvent : ConnectEvent
}.

(** The [auth] field: both parts or nothing. *)
Definition proxyAuth (env : ConnectEnv) (u : URL) : M (option string) :=
  if truthy (username u) && truthy (password u) then
    user <- liftE (decodeURIComponent env (username u)) ;;
    pass <- liftE (decodeURIComponent env (password u)) ;;
    ret (Some (user ++ ":" ++ pass))
  else
    ret None.

(** The body of [if (this.proxy) { try { ... } catch { ... } }].  What
    can throw inside the [try] is [new URL] and [decodeURIComponent]; the
    agent's constructor only stores its options. *)
Definition proxyAgent (env : ConnectEnv) : M (option AgentOptions) :=
  c <- this ;;
  if proxyConfigured c then
    try_catch
      (proxyUrl <- liftE (parsedProxy env) ;;
       auth <- proxyAuth env proxyUrl ;;
       ret (Some {| agent_protocol := protocol proxyUrl;
                    agent_host := hostname proxyUrl;
                    agent_port := port proxyUrl;
                    agent_auth := auth;
                    rejectUnauthorized := false;
                    agent_timeout := connectionTimeout c;
                    keepAlive := true;
                    keepAliveMsecs := 30000 |}))
      (fun error => throw (mkError ("Invalid proxy URL: " ++ message error)))
  else
    ret None.

(** The [options] literal, with [options.agent] as set by the proxy
    branch. *)
Definition connectOptions (c : GrassClient) (ag : option AgentOptions)
  : WsOptions :=
  {| headers := upgradeHeaders;
     handshakeTimeout := connectionTimeout c;
     followRedirects := true;
     maxPayload := 1024 * 1024;
     perMessageDeflate := false;
     agent := ag |}.

Definition connect (env : ConnectEnv) : M unit :=
  c <- this ;;
  ag <- proxyAgent env ;;
  assign (set_ws (Some (mkWebSocket CONNECTING))) ;;
  emit (NewWebSocket endpoint (connectOptions c ag)) ;;
  emit (SetTimeout (connectionTimeout c)) ;;
  emit (WsOnce EvOpen) ;;
  emit (WsOnce EvError) ;;
  match firstEvent env with
  | Opened _ =>
      (* the transport is OPEN when it emits open *)
      assign (becomes OPEN) ;;
      emit ClearTimeout ;;
      emit (Log Info ("Connected via proxy: " ++ showProxy c))
  | Errored error =>
      emit ClearTimeout ;;
      throw error
  | NothingInTime =>
      c' <- this ;;
      match ws c' with
      | Some _ => emit WsTerminate
      | None => ret tt
      end ;;
      throw (mkError "Connection timeout")
  end.

(** ** authenticate and sendAuthPayload *)

Definition authPayload (c : GrassClient) (authId : Value) (now : Z) : Value :=
  VObj [ ("id", authId);
         ("origin_action", VStr "AUTH");
         ("result",
           VObj [ ("browser_id", VStr (browserId c));
                  ("user_id", VStr (userId c));
                  ("user_agent", VStr userAgent);
                  ("timestamp", VNum (now / 1000));
                  ("device_type", VStr "desktop");
                  ("version", VStr "4.28.1") ]) ].

(** [now] is the reading of [Date.now()] taken when the payload is built. *)
Definition sendAuthPayload (authId : Value) (now : Z) (env : SendEnv)
  : M unit :=
  c <- this ;;
  sendMessage (authPayload c authId now) env.

(** What ends the wait of [authenticate]: the first inbound message (with
    the result of [JSON.parse(data.toString())], the clock and the fate of
    the reply), or the timer. *)
Inductive AuthEnv : Type :=
| Challenge (parsed : Error + Value) (now : Z) (reply : SendEnv)
| NoChallengeInTime.

Definition authenticate (env : AuthEnv) : M unit :=
  c <- this ;;
  emit (SetTimeout (connectionTimeout c)) ;;
  match ws c with
  | Some _ => emit (WsOnce EvMessage)
  | None =>
      throw (mkError "Cannot read properties of null (reading 'once')")
  end ;;
  match env with
  | Challenge parsed now reply =>
      emit ClearTimeout ;;
      try_catch
        (response <- liftE parsed ;;
         authId <- liftE (getProp response "id") ;;
         sendAuthPayload authId now reply ;;
         emit (Log Info "Authentication successful"))
        (fun error =>
           throw (mkError ("Authentication failed: " ++ message error)))
  | NoChallengeInTime =>
      throw (mkError "Authentication timeout")
  end.

(** ** startHeartbeat and its tick *)

Definition pingMessage (uuid : string) : Value :=
  VObj [ ("id", VStr uuid); ("action", VStr "PING"); ("data", VObj []) ].

Definition pongMessage : Value :=
  VObj [ ("id", VStr "F3X"); ("origin_action", VStr "PONG") ].

Record TickEnv : Type := mkTickEnv {
  tick_now : Z;                     (* Date.now() *)
  tick_uuid : string;               (* uuidv4() *)
  first_send : SendEnv;
  second_send : SendEnv
}.

(** [this.ws?.terminate()] *)
Definition terminateIfAny : M unit :=
  c <- this ;;
  match ws c with
  | Some _ => emit WsTerminate
  | None => ret tt
  end.

(** The callback given to [setInterval]. *)
Definition heartbeatTick (env : TickEnv) : M unit :=
  c <- this ;;
  if isOpen c then
    try_catch
      (let now := tick_now env in
       c <- this ;;
       if now - lastHeartbeat c >? 45000 then
         emit (Log Warn "Heartbeat timeout, reconnecting...") ;;
         terminateIfAny
       else
         sendMessage (pingMessage (tick_uuid env)) (first_send env) ;;
         sendMessage pongMessage (second_send env) ;;
         assign (set_lastHeartbeat now))
      (fun error =>
         emit (Log Err ("Heartbeat failed: " ++ message error)) ;;
         terminateIfAny)
  else
    ret tt.

(** [fresh] is the handle [setInterval] returns. *)
Definition startHeartbeat (fresh : Timer) : M unit :=
  c <- this ;;
  match heartbeatInterval c with
  | Some t => emit (ClearInterval t)
  | None => ret tt
  end ;;
  emit (SetInterval fresh 30000) ;;
  assign (set_heartbeatInterval (Some fresh)).

(** ** start *)

(** A callback that nobody awaits: a rejection stays outside the caller. *)
Definition detached (m : M unit) : M unit :=
  fun c =>
    match m c with
    | (Reject e, c1, t1) => (Resolve tt, c1, (t1 ++ [UnhandledRejection e])%list)
    | settled => settled
    end.

(** What happens while [start] waits for the close event.  An error
    event of the transport is not among them: until [cleanup] runs, the
    observer [connect] left behind with [once('error')] takes it, and all
    that observer does is clear a timer already cleared and reject a
    promise already resolved. *)
Inductive SessionEvent : Type :=
| TimerFired (env : TickEnv)
| Pong (now : Z)
| Transport (rs : ReadyState).

Definition sessionEvent (ev : SessionEvent) : M unit :=
  match ev with
  | TimerFired env => detached (heartbeatTick env)
  | Pong now => assign (set_lastHeartbeat now)
  | Transport rs => assign (becomes rs)
  end.

Fixpoint session (evs : list SessionEvent) : M unit :=
  match evs with
  | [] => ret tt
  | ev :: rest => sessionEvent ev ;; session rest
  end.

Record CycleEnv : Type := mkCycleEnv {
  connecting : ConnectEnv;
  authenticating : AuthEnv;
  interval : Timer;
  connected : list SessionEvent;
  closes : bool;                    (* does the close event ever arrive *)
  stray : option Error              (* an error event of this cycle's
                                       transport after [cleanup] has
                                       removed its observers *)
}.

(** How one turn of the loop ends. *)
Inductive Turn : Type :=
| GoesRound                 (* the backoff is over, the next turn starts *)
| StaysSuspended            (* waiting for a close event that never arrives *)
| ProcessDies (e : Error).  (* an unobserved error event ended the process *)

(** Whether the [connect] of this turn gets as far as [new WebSocket]:
    the proxy agent, if any, could be built. *)
Definition transportMade (env : CycleEnv) (c : GrassClient) : bool :=
  match outcome (proxyAgent (connecting env) c) with
  | Resolve _ => true
  | Reject _ => false
  end.

(** [await new Promise(resolve => setTimeout(resolve, this.reconnectDelay))].
    [cleanup] has just removed every observer of the transport this turn
    created, the error observer of [connect] among them, and has at most
    asked it to close, which leaves it alive for the closing handshake.
    An error event it emits now finds no observer: the emitter throws
    it, nothing catches it, and the process ends while the loop is
    asleep.  A turn whose [connect] failed before [new WebSocket] has no
    transport that could do so. *)
Definition backoff (env : CycleEnv) : M Turn :=
  c <- this ;;
  emit (Sleep (reconnectDelay c)) ;;
  match stray env with
  | Some e =>
      if transportMade env c then
        emit (UncaughtException e) ;;
        ret (ProcessDies e)
      else
        ret GoesRound
  | None => ret GoesRound
  end.

(** The [try] block of one iteration. *)
Definition lifecycle (env : CycleEnv) : M Turn :=
  connect (connecting env) ;;
  authenticate (authenticating env) ;;
  startHeartbeat (interval env) ;;
  c <- this ;;
  match ws c with
  | Some _ => emit (WsOnce EvClose) ;; emit (WsOn EvPong)
  | None =>
      throw (mkError "Cannot read properties of null (reading 'once')")
  end ;;
  session (connected env) ;;
  if closes env then
    (* the transport is CLOSED when it emits close *)
    assign (becomes CLOSED) ;;
    c <- this ;;
    emit (Log Warn ("Connection closed for proxy: " ++ showProxy c)) ;;
    cleanup ;;
    backoff env
  else
    ret StaysSuspended.

(** The [catch] block. *)
Definition recover (env : CycleEnv) (error : Error) : M Turn :=
  emit (Log Err ("Connection error: " ++ message error)) ;;
  cleanup ;;
  backoff env.

(** One turn of [while (true)]. *)
Definition iteration (env : CycleEnv) : M Turn :=
  try_catch (lifecycle env) (recover env).

Inductive LoopStatus : Type :=
| Looping           (* about to start the next iteration *)
| Suspended         (* waiting for a close event that never arrives *)
| Died (e : Error). (* the process ended on an unobserved error event *)

(** [start()], run for as many iterations as environments are given. *)
Fixpoint start (envs : list CycleEnv) : M LoopStatus :=
  match envs with
  | [] => ret Looping
  | env :: rest =>
      turn <- iteration env ;;
      match turn with
      | GoesRound => start rest
      | StaysSuspended => ret Suspended
      | ProcessDies e => ret (Died e)
      end
  end.

(** ** Reading objects, payloads and traces *)

(** The transport handle is set and the transport is open. *)
Definition transportOpen (c : GrassClient) : Prop :=
  exists w, ws c = Some w /\ readyState w = OPEN.

(** The two settings the constructor fixes. *)
Definition configured (c : GrassClient) : Prop :=
  reconnectDelay c = 10000 /\ connectionTimeout c = 30000.

(** What no method writes. *)
Definition settings (c : GrassClient)
  : string * option string * string * Z * Z :=
  (userId c, proxy c, browserId c, reconnectDelay c, connectionTimeout c).

(** [v.k] on a value known to be an object literal. *)
Definition field (k : string) (v : Value) : Value :=
  match v with
  | VObj fields => lookup k fields
  | _ => VUndefined
  end.

(** The payloads written to the transport, in order. *)
Fixpoint sent (tr : list Action) : list Value :=
  match tr with
  | [] => []
  | WsSend p :: rest => p :: sent rest
  | _ :: rest => sent rest
  end.


(** The lengths of the backoff delays, in order. *)
Fixpoint sleeps (tr : list Action) : list Z :=
  match tr with
  | [] => []
  | Sleep ms :: rest => ms :: sleeps rest
  | _ :: rest => sleeps rest
  end.

(** The calls [cleanup] makes, read off the object it is called on. *)
Definition cleanupActions (c : GrassClient) : list Action :=
  (match heartbeatInterval c with
   | Some t => [ClearInterval t]
   | None => []
   end ++
   match ws c with
   | Some w =>
       WsRemoveAllListeners ::
       (if ReadyState_eqb (readyState w) OPEN then [WsClose] else [])
   | None => []
   end)%list.

(** Both writes of a tick complete without error, the transport still
    being open when the second one is issued. *)
Definition bothSendsSucceed (env : TickEnv) (c : GrassClient) : bool :=
  match completion (first_send env), completion (second_send env) with
  | Completed None, Completed None =>
      isOpen (interfered (meanwhile (first_send env)) c)
  | _, _ => false
  end.

(** What [this.ws?.terminate()] does on a given object. *)
Definition terminations (c : GrassClient) : list Action :=
  match ws c with
  | Some _ => [WsTerminate]
  | None => []
  end.

(** The [catch] block of a tick, entered on the object [c]. *)
Definition tickFailure (e : Error) (c : GrassClient) : list Action :=
  Log Err ("Heartbeat failed: " ++ message e) :: terminations c.

(** The agent options built from a parsed proxy URL and the value of
    the [auth] field. *)
Definition agentFor (c : GrassClient) (u : URL) (auth : option string)
  : AgentOptions :=
  {| agent_protocol := protocol u;
     agent_host := hostname u;
     agent_port := port u;
     agent_auth := auth;
     rejectUnauthorized := false;
     agent_timeout := connectionTimeout c;
     keepAlive := true;
     keepAliveMsecs := 30000 |}.

(** The calls [connect] makes before it waits. *)
Definition opening (c : GrassClient) (ag : option AgentOptions)
  : list Action :=
  [ NewWebSocket endpoint (connectOptions c ag);
    SetTimeout (connectionTimeout c);
    WsOnce EvOpen;
    WsOnce EvError ].

(** Exactly one of the two credential parts of a URL is present. *)
Definition oneCredentialMissing (u : URL) : Prop :=
  xorb (truthy (username u)) (truthy (password u)) = true.

(** A computation that leaves the settings alone and never sleeps. *)
Definition quiet {A} (m : M A) : Prop :=
  forall c,
    settings (final (m c)) = settings c /\ sleeps (trace (m c)) = [].

(** The backoff delays a turn ending as [turn] has armed, on an object
    whose delay is [delay]: none while the loop stays suspended, one
    otherwise. *)
Definition sleptFor (delay : Z) (turn : Turn) : list Z :=
  match turn with
  | StaysSuspended => []
  | _ => [delay]
  end.

(** What one turn of the loop may come to, started on [c]: never a
    rejection; the settings kept; one backoff delay of the configured
    length unless the loop stays suspended, which it does not when the
    close event arrives; and the process only dies when the abandoned
    transport emits an error. *)
Definition turnShape (env : CycleEnv) (c : GrassClient)
           (r : Outcome Turn * GrassClient * list Action) : Prop :=
  settings (final r) = settings c
  /\ exists turn,
       outcome r = Resolve turn
       /\ sleeps (trace r) = sleptFor (reconnectDelay c) turn
       /\ (closes env = true -> turn <> StaysSuspended)
       /\ (stray env = None -> forall e, turn <> ProcessDies e).

(** The same for the [try] block alone, which may also reject, without
    having slept. *)
Definition tryShape (env : CycleEnv) (c : GrassClient)
           (r : Outcome Turn * GrassClient * list Action) : Prop :=
  settings (final r) = settings c
  /\ match outcome r with
     | Resolve turn =>
         sleeps (trace r) = sleptFor (reconnectDelay c) turn
         /\ (closes env = true -> turn <> StaysSuspended)
         /\ (stray env = None -> forall e, turn <> ProcessDies e)
     | Reject _ => sleeps (trace r) = []
     end.

(** The object [cleanup] leaves behind. *)
Definition cleaned (c : GrassClient) : GrassClient :=
  set_ws None (set_heartbeatInterval None c).

(** The error, if any, that the transport made in this turn emits once
    it has been abandoned. *)
Definition strayed (env : CycleEnv) (c : GrassClient) : option Error :=
  if transportMade env c then stray env else None.

(** How the backoff ends, and what is seen of it after the timer has
    been armed. *)
Definition afterBackoff (env : CycleEnv) (c : GrassClient) : Turn :=
  match strayed env c with
  | Some e => ProcessDies e
  | None => GoesRound
  end.

Definition strayTrace (env : CycleEnv) (c : GrassClient) : list Action :=
  match strayed env c with
  | Some e => [UncaughtException e]
  | None => []
  end.

(** ** Sample inputs *)

Definition freshClient : GrassClient :=
  constructor "user-1" None "browser-1" 0.

(** The same object once [connect] has resolved. *)
Definition openClient : GrassClient :=
  set_ws (Some (mkWebSocket OPEN)) freshClient.

Definition acknowledged : SendEnv := mkSendEnv (Completed None) [].


(** What [new URL("http://alice@10.0.0.1:8080")] returns: a user name
    and no password. *)
Definition userOnlyURL : URL :=
  {| protocol := "http:";
     hostname := "10.0.0.1";
     port := "8080";
     username := "alice";
     password := "" |}.

Definition proxiedClient : GrassClient :=
  constructor "user-1" (Some "http://alice@10.0.0.1:8080") "browser-1" 0.

(** A platform whose percent-decoding always succeeds. *)
Definition userOnlyEnv (ev : ConnectEvent) : ConnectEnv :=
  mkConnectEnv (inr userOnlyURL) (fun s => inr s) ev.

(** A cycle whose transport refuses the connection. *)
Definition refused : CycleEnv :=
  mkCycleEnv
    (mkConnectEnv (inl (mkError "Invalid URL")) (fun s => inr s)
                  (Errored (mkError "connect ECONNREFUSED")))
    NoChallengeInTime 1%nat [] true None.

(** A cycle that connects, authenticates, beats once and is closed. *)
Definition served : CycleEnv :=
  mkCycleEnv
    (mkConnectEnv (inl (mkError "Invalid URL")) (fun s => inr s)
                  (Opened 1000))
    (Challenge (inr (VObj [("id", VStr "abc123")])) 2000
               (mkSendEnv (Completed None) []))
    1%nat
    [TimerFired (mkTickEnv 32000 "ping-1"
                   (mkSendEnv (Completed None) [])
                   (mkSendEnv (Completed None) []))]
    true None.

(** The transport opens 20 s after construction. *)
Definition slowOpening : ConnectEnv :=
  mkConnectEnv (inl (mkError "Invalid URL")) (fun s => inr s)
               (Opened 20000).

(** A tick at clock reading [now] whose writes are both acknowledged. *)
Definition goodTick (now : Z) : TickEnv :=
  mkTickEnv now "ping-1" (mkSendEnv (Completed None) [])
            (mkSendEnv (Completed None) []).

(** A tick at clock reading [now] whose writes are both acknowledged,
    and during whose second write a pong is observed at [ponged]. *)
Definition pongedTick (now ponged : Z) : TickEnv :=
  mkTickEnv now "ping-1" (mkSendEnv (Completed None) [])
            (mkSendEnv (Completed None) [PongObserved ponged]).

(** The transport opens, no challenge arrives, and while it is being
    closed after [cleanup] the transport reports a reset. *)
Definition resetWhileClosing : CycleEnv :=
  mkCycleEnv
    (mkConnectEnv (inl (mkError "Invalid URL")) (fun s => inr s)
                  (Opened 1000))
    NoChallengeInTime 1%nat [] true (Some (mkError "read ECONNRESET")).


(** No proxy is configured, so the first two fields are never read. *)
Definition directEnv (ev : ConnectEvent) : ConnectEnv :=
  mkConnectEnv (inl (mkError "Invalid URL")) (fun s => inr s) ev.

(** A session whose transport opens at clock reading [opened], whose
    challenge is answered a second later, whose timer fires at each of
    [beats], every write being acknowledged, and whose transport then
    closes. *)
Definition sessionAt (opened : Z) (beats : list Z) : CycleEnv :=
  mkCycleEnv
    (directEnv (Opened opened))
    (Challenge (inr (VObj [("id", VStr "abc123")])) (opened + 1000)
               acknowledged)
    1%nat
    (map (fun now => TimerFired (goodTick now)) beats
       ++ [Transport CLOSED])%list
    true None.

(** Three sessions in a row.  The first opens at 1 s, beats at 32 s,
    62 s and 92 s, and is closed by the server at 100 s.  After the 10 s
    backoff the second opens at 111 s and has its first tick at 142 s;
    the third opens at 153 s and has its first tick at 184 s. *)
Definition reconnects : list CycleEnv :=
  [sessionAt 1000 [32000; 62000; 92000];
   sessionAt 111000 [142000];
   sessionAt 153000 [184000]].

(** ** Kinds of calls, and computations that never make them *)

Definition isTerminate (a : Action) : bool :=
  match a with WsTerminate => true | _ => false end.

Definition isClose (a : Action) : bool :=
  match a with WsClose => true | _ => false end.

Definition isCreate (a : Action) : bool :=
  match a with NewWebSocket _ _ => true | _ => false end.

Definition isArm (a : Action) : bool :=
  match a with SetInterval _ _ => true | _ => false end.

Definition isUnhandled (a : Action) : bool :=
  match a with UnhandledRejection _ => true | _ => false end.

(** An interval armed with a period other than 30 s. *)
Definition isOddInterval (a : Action) : bool :=
  match a with SetInterval _ ms => negb (Z.eqb ms 30000) | _ => false end.

(** On no object does [m] make a call of the kind [bad]. *)
Definition neverDoes {A} (bad : Action -> bool) (m : M A) : Prop :=
  forall c, existsb bad (trace (m c)) = false.

(** ** The loop, piece by piece *)

(** A run that goes round again has forgotten the transport handle and
    the heartbeat timer. *)
Definition tornDown (r : Outcome Turn * GrassClient * list Action) : Prop :=
  outcome r = Resolve GoesRound ->
  ws (final r) = None /\ heartbeatInterval (final r) = None.

(** What the [try] block does once [authenticate] has resolved. *)
Definition afterAuthentication (env : CycleEnv) : M Turn :=
  startHeartbeat (interval env) ;;
  c <- this ;;
  match ws c with
  | Some _ => emit (WsOnce EvClose) ;; emit (WsOn EvPong)
  | None =>
      throw (mkError "Cannot read properties of null (reading 'once')")
  end ;;
  session (connected env) ;;
  if closes env then
    assign (becomes CLOSED) ;;
    c <- this ;;
    emit (Log Warn ("Connection closed for proxy: " ++ showProxy c)) ;;
    cleanup ;;
    backoff env
  else
    ret StaysSuspended.


(** The transports created along a trace. *)
Definition created (tr : list Action) : list Action := filter isCreate tr.

(** ** Readings of a challenge *)

(** How [authenticate] names a failure that happens after the challenge
    has arrived. *)
Definition authFailure (e : Error) : Error :=
  mkError ("Authentication failed: " ++ message e).

(** The calls [authenticate] makes up to the arrival of the challenge. *)
Definition challenged (c : GrassClient) : list Action :=
  [SetTimeout (connectionTimeout c); WsOnce EvMessage; ClearTimeout].

(** ** Sessions *)

(** The first three calls of the [try] block. *)
Definition establish (cenv : ConnectEnv) (aenv : AuthEnv) (fresh : Timer)
  : M unit :=
  connect cenv ;;
  authenticate aenv ;;
  startHeartbeat fresh.

(** No pong is observed among what runs meanwhile. *)
Definition noPong (l : list Interference) : Prop :=
  forall now, ~ In (PongObserved now) l.

(** While [authenticate] waits no pong observer is registered yet. *)
Definition noPongDuring (aenv : AuthEnv) : Prop :=
  match aenv with
  | Challenge _ _ reply => noPong (meanwhile reply)
  | NoChallengeInTime => True
  end.

(** A computation that leaves the liveness timestamp alone. *)
Definition keepsTimestamp {A} (m : M A) : Prop :=
  forall c, lastHeartbeat (final (m c)) = lastHeartbeat c.

(** Nothing but pongs is observed among what runs meanwhile: the
    transport stays as it is and [cleanup] does not run. *)
Definition onlyPongs (l : list Interference) : Prop :=
  forall i, In i l -> exists now, i = PongObserved now.

(** A write that is acknowledged without error while the transport stays
    open; pongs may be observed while it is under way. *)
Definition undisturbed (env : SendEnv) : Prop :=
  completion env = Completed None /\ onlyPongs (meanwhile env).

(** Events of a session in which the transport stays open, every tick
    starts at most 45 s after the clock reading the timestamp then holds
    and has both its writes acknowledged.  The timestamp holds [last] at
    first; after a tick, the clock reading the tick took when it started,
    whatever pongs were observed while it wrote; after a pong observed
    between ticks, the clock reading of that pong. *)
Fixpoint wellPaced (last : Z) (evs : list SessionEvent) : Prop :=
  match evs with
  | [] => True
  | TimerFired env :: rest =>
      tick_now env - last <= 45000
      /\ undisturbed (first_send env)
      /\ undisturbed (second_send env)
      /\ wellPaced (tick_now env) rest
  | Pong now :: rest => wellPaced now rest
  | Transport _ :: _ => False
  end.

(** The number of ticks among the events. *)
Fixpoint ticks (evs : list SessionEvent) : nat :=
  match evs with
  | [] => 0%nat
  | TimerFired _ :: rest => S (ticks rest)
  | _ :: rest => ticks rest
  end.

(** The clock reading of the last event that writes the timestamp, the
    start of a tick or a pong observed between ticks; [last] if there is
    none. *)
Fixpoint lastSignal (last : Z) (evs : list SessionEvent) : Z :=
  match evs with
  | [] => last
  | TimerFired env :: rest => lastSignal (tick_now env) rest
  | Pong now :: rest => lastSignal now rest
  | Transport _ :: rest => lastSignal last rest
  end.

(** ** Timers *)

(** The two methods that touch the heartbeat timer. *)
Inductive TimerCall : Type :=
| Arm (fresh : Timer)      (* startHeartbeat(), setInterval returning fresh *)
| Disarm.                  (* cleanup() *)

Definition timerCall (call : TimerCall) : M unit :=
  match call with
  | Arm fresh => startHeartbeat fresh
  | Disarm => cleanup
  end.

Fixpoint timerCalls (calls : list TimerCall) : M unit :=
  match calls with
  | [] => ret tt
  | call :: rest => timerCall call ;; timerCalls rest
  end.

(** The intervals armed and not cleared since, given those that were
    [live] before the trace. *)
Fixpoint liveTimers (live : list Timer) (tr : list Action) : list Timer :=
  match tr with
  | [] => live
  | SetInterval t _ :: rest => liveTimers (t :: live) rest
  | ClearInterval t :: rest => liveTimers (remove Nat.eq_dec t live) rest
  | _ :: rest => liveTimers live rest
  end.

(** The timer the object remembers, as a list. *)
Definition remembered (c : GrassClient) : list Timer :=
  match heartbeatInterval c with
  | Some t => [t]
  | None => []
  end.

(** ** What is written to the transport *)

(** The three messages of the protocol, for a client with user
    identifier [uid] and instance identifier [bid]: an auth reply carrying
    both, a ping, the pong acknowledgment. *)
Definition protocolMessage (uid bid : string) (p : Value) : Prop :=
  (exists c authId now,
     userId c = uid /\ browserId c = bid /\ p = authPayload c authId now)
  \/ (exists uuid, p = pingMessage uuid)
  \/ p = pongMessage.

Definition protocolAction (uid bid : string) (a : Action) : Prop :=
  match a with
  | WsSend p => protocolMessage uid bid p
  | _ => True
  end.

(** Run on an object with these identifiers, [m] writes protocol
    messages only. *)
Definition speaksProtocol {A} (uid bid : string) (m : M A) : Prop :=
  forall c, userId c = uid -> browserId c = bid ->
            Forall (protocolAction uid bid) (trace (m c)).

(** A computation that leaves the settings alone. *)
Definition keepsSettings {A} (m : M A) : Prop :=
  forall c, settings (final (m c)) = settings c.

(** * Properties *)

(** ** Running computations *)

Lemma bind_Resolve {A B} (m : M A) (f : A -> M B) c a c1 t1 :
  m c = (Resolve a, c1, t1) ->
  bind m f c =
  (outcome (f a c1), final (f a c1), (t1 ++ trace (f a c1))%list).
Proof.
  intros H. unfold bind, outcome, final, trace. rewrite H.
  destruct (f a c1) as [[r c2] t2]. reflexivity.
Qed.

Lemma bind_Reject_run {A B} (m : M A) (f : A -> M B) c e c1 t1 :
  m c = (Reject e, c1, t1) ->
  bind m f c = (Reject e, c1, t1).
Proof. intros H. unfold bind. rewrite H. reflexivity. Qed.

Lemma try_catch_Resolve {A} (m : M A) (h : Error -> M A) c a c1 t1 :
  m c = (Resolve a, c1, t1) ->
  try_catch m h c = (Resolve a, c1, t1).
Proof. intros H. unfold try_catch. rewrite H. reflexivity. Qed.

Lemma try_catch_Reject {A} (m : M A) (h : Error -> M A) c e c1 t1 :
  m c = (Reject e, c1, t1) ->
  try_catch m h c =
  (outcome (h e c1), final (h e c1), (t1 ++ trace (h e c1))%list).
Proof.
  intros H. unfold try_catch, outcome, final, trace. rewrite H.
  destruct (h e c1) as [[r c2] t2]. reflexivity.
Qed.

Ltac unfold_monad :=
  unfold liftE, bind, try_catch, this, assign, emit, ret, throw,
    outcome, final, trace in *.

Lemma ReadyState_eqb_eq (a b : ReadyState) :
  ReadyState_eqb a b = true <-> a = b.
Proof. destruct a, b; simpl; split; congruence. Qed.

Lemma isOpen_transportOpen (c : GrassClient) :
  isOpen c = true <-> transportOpen c.
Proof.
  unfold isOpen, transportOpen. split.
  - destruct (ws c) as [w|]; [|discriminate].
    intros H. exists w. split; [reflexivity|].
    now apply ReadyState_eqb_eq.
  - intros [w [-> Hw]]. now apply ReadyState_eqb_eq.
Qed.

Lemma isOpen_not_transportOpen (c : GrassClient) :
  isOpen c = false <-> ~ transportOpen c.
Proof.
  rewrite <- isOpen_transportOpen. destruct (isOpen c); split; congruence.
Qed.

Lemma sent_app (t1 t2 : list Action) :
  sent (t1 ++ t2) = (sent t1 ++ sent t2)%list.
Proof.
  induction t1 as [|a t1 IH]; [reflexivity|].
  destruct a; simpl; rewrite IH; reflexivity.
Qed.

Lemma sleeps_app (t1 t2 : list Action) :
  sleeps (t1 ++ t2) = (sleeps t1 ++ sleeps t2)%list.
Proof.
  induction t1 as [|a t1 IH]; [reflexivity|].
  destruct a; simpl; rewrite IH; reflexivity.
Qed.

(** ** cleanup *)

Lemma cleanup_run (c : GrassClient) :
  cleanup c =
  (Resolve tt, set_ws None (set_heartbeatInterval None c), cleanupActions c).
Proof.
  destruct c as [uid prx [[rs]|] bid [t|] rd ct lh];
    try destruct rs; reflexivity.
Qed.

Example cleanup_open_session :
  cleanup (mkClient "u" None (Some (mkWebSocket OPEN)) "b" (Some 7%nat)
                    10000 30000 0) =
  (Resolve tt, mkClient "u" None None "b" None 10000 30000 0,
   [ClearInterval 7%nat; WsRemoveAllListeners; WsClose]).
Proof. reflexivity. Qed.

Example cleanup_closing_session :
  trace (cleanup (mkClient "u" None (Some (mkWebSocket CLOSING)) "b" None
                           10000 30000 0)) =
  [WsRemoveAllListeners].
Proof. reflexivity. Qed.

(** C8. [cleanup()] is total and idempotent.  From any object it
    resolves; it clears the heartbeat timer when one is armed and forgets
    it; when a transport handle exists it detaches every observer, asks
    for a graceful close only if the transport is open, and forgets the
    handle; nothing else of the object changes.  A second call right after
    resolves as well, does nothing at all and leaves the handle null, so
    two calls in a row behave as one. *)
Theorem C8_cleanup_total_idempotent (c : GrassClient) :
  cleanup c =
    (Resolve tt, set_ws None (set_heartbeatInterval None c), cleanupActions c)
  /\ ws (final (cleanup c)) = None
  /\ heartbeatInterval (final (cleanup c)) = None
  /\ (forall t, heartbeatInterval c = Some t ->
        In (ClearInterval t) (trace (cleanup c)))
  /\ (ws c <> None -> In WsRemoveAllListeners (trace (cleanup c)))
  /\ (In WsClose (trace (cleanup c)) <-> transportOpen c)
  /\ ~ In WsTerminate (trace (cleanup c))
  /\ cleanup (final (cleanup c)) = (Resolve tt, final (cleanup c), [])
  /\ (cleanup ;; cleanup) c = cleanup c
  /\ ws (final ((cleanup ;; cleanup) c)) = None.
Proof.
  rewrite <- isOpen_transportOpen, !cleanup_run.
  destruct c as [uid prx [[rs]|] bid [t|] rd ct lh];
    try destruct rs; cbn;
    repeat split; try reflexivity;
    try (intros ? [= <-]; now left);
    intuition (try discriminate; auto).
Qed.

(** ** sendMessage *)

Lemma sendMessage_run (payload : Value) (env : SendEnv) (c : GrassClient) :
  sendMessage payload env c =
  if isOpen c then
    match completion env with
    | Completed None =>
        (Resolve tt, interfered (meanwhile env) c,
         [SetTimeout 10000; WsSend payload; ClearTimeout])
    | Completed (Some e) =>
        (Reject e, interfered (meanwhile env) c,
         [SetTimeout 10000; WsSend payload; ClearTimeout])
    | NotInTime =>
        (Reject (mkError "Send message timeout"),
         interfered (meanwhile env) c,
         [SetTimeout 10000; WsSend payload])
    end
  else
    (Reject (mkError "WebSocket not connected"), c, []).
Proof.
  unfold sendMessage, interfere. unfold_monad.
  destruct (isOpen c); [|reflexivity].
  destruct (completion env) as [[e|]|]; reflexivity.
Qed.

(** C6. Without a transport handle, or with a transport that is not
    open, [sendMessage] rejects at once with "WebSocket not connected":
    no timer is armed, nothing is written, the object is untouched and the
    fate of a write is never consulted.  With an open transport whose
    write is not acknowledged before the 10 s timer, it rejects with
    "Send message timeout", the timer having been armed for 10000 ms
    before the write. *)
Theorem C6_sendMessage_rejections
        (payload : Value) (env : SendEnv) (c : GrassClient) :
  (~ transportOpen c ->
     sendMessage payload env c =
     (Reject (mkError "WebSocket not connected"), c, []))
  /\ (transportOpen c -> completion env = NotInTime ->
     outcome (sendMessage payload env c) =
       Reject (mkError "Send message timeout")
     /\ trace (sendMessage payload env c) =
       [SetTimeout 10000; WsSend payload]).
Proof.
  rewrite sendMessage_run. split.
  - intros H. apply isOpen_not_transportOpen in H. now rewrite H.
  - intros H Hc. apply isOpen_transportOpen in H. rewrite H, Hc.
    split; reflexivity.
Qed.

(** C6 at a freshly constructed object (no handle), at a closing
    transport, and at an open transport whose write is never
    acknowledged. *)
Lemma C6_sendMessage_rejections_witness :
  sendMessage pongMessage (mkSendEnv (Completed None) [])
              (constructor "user" None "bid" 0) =
    (Reject (mkError "WebSocket not connected"),
     constructor "user" None "bid" 0, [])
  /\ sendMessage pongMessage (mkSendEnv (Completed None) [])
              (set_ws (Some (mkWebSocket CLOSING))
                      (constructor "user" None "bid" 0)) =
    (Reject (mkError "WebSocket not connected"),
     set_ws (Some (mkWebSocket CLOSING)) (constructor "user" None "bid" 0),
     [])
  /\ outcome (sendMessage pongMessage (mkSendEnv NotInTime [])
                 (set_ws (Some (mkWebSocket OPEN))
                         (constructor "user" None "bid" 0))) =
    Reject (mkError "Send message timeout").
Proof.
  split; [|split].
  - apply (C6_sendMessage_rejections pongMessage
             (mkSendEnv (Completed None) [])
             (constructor "user" None "bid" 0)).
    intros [w [H _]]. discriminate H.
  - apply (C6_sendMessage_rejections pongMessage
             (mkSendEnv (Completed None) [])
             (set_ws (Some (mkWebSocket CLOSING))
                     (constructor "user" None "bid" 0))).
    intros [w [H Hw]]. injection H as <-. discriminate Hw.
  - apply (C6_sendMessage_rejections pongMessage (mkSendEnv NotInTime [])
             (set_ws (Some (mkWebSocket OPEN))
                     (constructor "user" None "bid" 0))).
    + exists (mkWebSocket OPEN). split; reflexivity.
    + reflexivity.
Defined.

(** ** The heartbeat tick *)

Lemma terminateIfAny_run (c : GrassClient) :
  terminateIfAny c = (Resolve tt, c, terminations c).
Proof.
  unfold terminateIfAny, terminations. unfold_monad.
  destruct (ws c); reflexivity.
Qed.

Lemma isOpen_terminations (c : GrassClient) :
  isOpen c = true -> terminations c = [WsTerminate].
Proof.
  unfold isOpen, terminations. destruct (ws c); [reflexivity|discriminate].
Qed.

(** Every path of a tick, spelled out. *)
Lemma heartbeatTick_run (env : TickEnv) (c : GrassClient) :
  let now := tick_now env in
  let ping := pingMessage (tick_uuid env) in
  let c1 := interfered (meanwhile (first_send env)) c in
  let c2 := interfered (meanwhile (second_send env)) c1 in
  heartbeatTick env c =
  if isOpen c then
    if now - lastHeartbeat c >? 45000 then
      (Resolve tt, c,
       [Log Warn "Heartbeat timeout, reconnecting..."; WsTerminate])
    else
      match completion (first_send env) with
      | Completed None =>
          if isOpen c1 then
            match completion (second_send env) with
            | Completed None =>
                (Resolve tt, set_lastHeartbeat now c2,
                 [SetTimeout 10000; WsSend ping; ClearTimeout;
                  SetTimeout 10000; WsSend pongMessage; ClearTimeout])
            | Completed (Some e) =>
                (Resolve tt, c2,
                 ([SetTimeout 10000; WsSend ping; ClearTimeout;
                   SetTimeout 10000; WsSend pongMessage; ClearTimeout]
                  ++ tickFailure e c2)%list)
            | NotInTime =>
                (Resolve tt, c2,
                 ([SetTimeout 10000; WsSend ping; ClearTimeout;
                   SetTimeout 10000; WsSend pongMessage]
                  ++ tickFailure (mkError "Send message timeout") c2)%list)
            end
          else
            (Resolve tt, c1,
             ([SetTimeout 10000; WsSend ping; ClearTimeout]
              ++ tickFailure (mkError "WebSocket not connected") c1)%list)
      | Completed (Some e) =>
          (Resolve tt, c1,
           ([SetTimeout 10000; WsSend ping; ClearTimeout]
            ++ tickFailure e c1)%list)
      | NotInTime =>
          (Resolve tt, c1,
           ([SetTimeout 10000; WsSend ping]
            ++ tickFailure (mkError "Send message timeout") c1)%list)
      end
  else
    (Resolve tt, c, []).
Proof.
  intros now ping c1 c2. unfold heartbeatTick.
  unfold bind at 1. unfold this at 1.
  destruct (isOpen c) eqn:Hopen; [|reflexivity].
  unfold try_catch, bind at 1. unfold this at 1. fold now.
  destruct (now - lastHeartbeat c >? 45000).
  - unfold bind, emit. rewrite terminateIfAny_run.
    rewrite (isOpen_terminations c Hopen). reflexivity.
  - unfold bind at 1. rewrite sendMessage_run, Hopen. fold ping c1.
    destruct (completion (first_send env)) as [[e|]|].
    + unfold bind, emit. rewrite terminateIfAny_run. reflexivity.
    + unfold bind at 1. rewrite sendMessage_run. fold c2.
      destruct (isOpen c1).
      * destruct (completion (second_send env)) as [[e|]|];
          unfold bind, emit, assign; rewrite ?terminateIfAny_run;
          reflexivity.
      * unfold bind, emit. rewrite terminateIfAny_run. reflexivity.
    + unfold bind, emit. rewrite terminateIfAny_run. reflexivity.
Qed.


Example tick_on_fresh_session :
  heartbeatTick (mkTickEnv 30000 "ping-1" acknowledged acknowledged)
                openClient =
  (Resolve tt, set_lastHeartbeat 30000 openClient,
   [SetTimeout 10000; WsSend (pingMessage "ping-1"); ClearTimeout;
    SetTimeout 10000; WsSend pongMessage; ClearTimeout]).
Proof. reflexivity. Qed.

Example tick_on_stale_session :
  heartbeatTick (mkTickEnv 45001 "ping-1" acknowledged acknowledged)
                openClient =
  (Resolve tt, openClient,
   [Log Warn "Heartbeat timeout, reconnecting..."; WsTerminate]).
Proof. reflexivity. Qed.

Example tick_at_the_threshold :
  sent (trace (heartbeatTick
                 (mkTickEnv 45000 "ping-1" acknowledged acknowledged)
                 openClient)) =
  [pingMessage "ping-1"; pongMessage].
Proof. reflexivity. Qed.

(** C10. A tick that fires while there is no transport handle, or while
    the transport is not open, does nothing whatever the clock says: it
    resolves, leaves the object (the liveness timestamp with it) as it
    was, and makes no call at all, so it neither sends nor terminates. *)
Theorem C10_tick_idle_unless_open
        (env : TickEnv) (c : GrassClient) (Hclosed : ~ transportOpen c) :
  heartbeatTick env c = (Resolve tt, c, [])
  /\ ~ In WsTerminate (trace (heartbeatTick env c))
  /\ sent (trace (heartbeatTick env c)) = []
  /\ lastHeartbeat (final (heartbeatTick env c)) = lastHeartbeat c.
Proof.
  apply isOpen_not_transportOpen in Hclosed.
  rewrite heartbeatTick_run. cbv zeta. rewrite Hclosed.
  repeat split; auto.
Qed.

(** C10 on an object without a handle and on one whose transport is
    closing, each with a timestamp that is 60 s old. *)
Lemma C10_tick_idle_unless_open_witness :
  heartbeatTick (mkTickEnv 60000 "ping-1" acknowledged acknowledged)
                freshClient = (Resolve tt, freshClient, [])
  /\ heartbeatTick (mkTickEnv 60000 "ping-1" acknowledged acknowledged)
                   (set_ws (Some (mkWebSocket CLOSING)) freshClient) =
     (Resolve tt, set_ws (Some (mkWebSocket CLOSING)) freshClient, []).
Proof.
  split.
  - apply (C10_tick_idle_unless_open
             (mkTickEnv 60000 "ping-1" acknowledged acknowledged)
             freshClient).
    intros [w [H _]]. discriminate H.
  - apply (C10_tick_idle_unless_open
             (mkTickEnv 60000 "ping-1" acknowledged acknowledged)
             (set_ws (Some (mkWebSocket CLOSING)) freshClient)).
    intros [w [H Hw]]. injection H as <-. discriminate Hw.
Defined.

(** C4. A tick that fires while the transport is open and more than
    45 s after the recorded liveness timestamp logs the warning and
    terminates the transport, and that is all: nothing is sent and the
    object, the liveness timestamp included, is left as it was. *)
Theorem C4_stale_tick_terminates
        (env : TickEnv) (c : GrassClient)
        (Hopen : transportOpen c)
        (Hstale : tick_now env - lastHeartbeat c > 45000) :
  heartbeatTick env c =
    (Resolve tt, c,
     [Log Warn "Heartbeat timeout, reconnecting..."; WsTerminate])
  /\ sent (trace (heartbeatTick env c)) = []
  /\ lastHeartbeat (final (heartbeatTick env c)) = lastHeartbeat c.
Proof.
  apply isOpen_transportOpen in Hopen.
  assert (Hgt : (tick_now env - lastHeartbeat c >? 45000) = true)
    by (apply Z.gtb_lt; lia).
  rewrite heartbeatTick_run. cbv zeta. rewrite Hopen, Hgt.
  repeat split.
Qed.

(** C4 on an open session whose timestamp is 45001 ms old. *)
Lemma C4_stale_tick_terminates_witness :
  heartbeatTick (mkTickEnv 45001 "ping-1" acknowledged acknowledged)
                openClient =
  (Resolve tt, openClient,
   [Log Warn "Heartbeat timeout, reconnecting..."; WsTerminate]).
Proof.
  apply (C4_stale_tick_terminates
           (mkTickEnv 45001 "ping-1" acknowledged acknowledged) openClient).
  - exists (mkWebSocket OPEN). split; reflexivity.
  - simpl. lia.
Defined.




(** ** connect *)

Lemma proxyAgent_pure (env : ConnectEnv) (c : GrassClient) :
  proxyAgent env c = (outcome (proxyAgent env c), c, []).
Proof.
  unfold proxyAgent, proxyAuth. unfold_monad.
  destruct (proxyConfigured c); [|reflexivity].
  destruct (parsedProxy env) as [e|u]; [reflexivity|].
  simpl.
  destruct (truthy (username u) && truthy (password u)); [|reflexivity].
  destruct (decodeURIComponent env (username u)); [reflexivity|].
  destruct (decodeURIComponent env (password u)); reflexivity.
Qed.

(** Every path of [connect], spelled out. *)
Lemma connect_run (env : ConnectEnv) (c : GrassClient) :
  connect env c =
  match outcome (proxyAgent env c) with
  | Reject e => (Reject e, c, [])
  | Resolve ag =>
      let c0 := set_ws (Some (mkWebSocket CONNECTING)) c in
      match firstEvent env with
      | Opened _ =>
          (Resolve tt, becomes OPEN c0,
           (opening c ag ++
            [ClearTimeout;
             Log Info ("Connected via proxy: " ++ showProxy c)])%list)
      | Errored e => (Reject e, c0, (opening c ag ++ [ClearTimeout])%list)
      | NothingInTime =>
          (Reject (mkError "Connection timeout"), c0,
           (opening c ag ++ [WsTerminate])%list)
      end
  end.
Proof.
  unfold connect. unfold bind at 1. unfold this at 1.
  unfold bind at 1. rewrite (proxyAgent_pure env c).
  destruct (outcome (proxyAgent env c)) as [ag|e]; [|reflexivity].
  destruct (firstEvent env); reflexivity.
Qed.

Lemma lastHeartbeat_becomes (rs : ReadyState) (c : GrassClient) :
  lastHeartbeat (becomes rs c) = lastHeartbeat c.
Proof. unfold becomes. destruct (ws c); reflexivity. Qed.

Lemma settings_becomes (rs : ReadyState) (c : GrassClient) :
  settings (becomes rs c) = settings c.
Proof. unfold becomes. destruct (ws c); reflexivity. Qed.

Lemma proxyAgent_direct (env : ConnectEnv) (c : GrassClient) :
  proxyConfigured c = false ->
  outcome (proxyAgent env c) = Resolve None.
Proof.
  intros H. unfold proxyAgent. unfold_monad. rewrite H. reflexivity.
Qed.

Lemma proxyAgent_unparsable (env : ConnectEnv) (c : GrassClient) e :
  proxyConfigured c = true ->
  parsedProxy env = inl e ->
  outcome (proxyAgent env c) =
  Reject (mkError ("Invalid proxy URL: " ++ message e)).
Proof.
  intros H He. unfold proxyAgent. unfold_monad. rewrite H, He. reflexivity.
Qed.

Lemma proxyAgent_without_auth (env : ConnectEnv) (c : GrassClient) u :
  proxyConfigured c = true ->
  parsedProxy env = inr u ->
  truthy (username u) && truthy (password u) = false ->
  outcome (proxyAgent env c) = Resolve (Some (agentFor c u None)).
Proof.
  intros H Hu Hb. unfold proxyAgent, proxyAuth. unfold_monad.
  rewrite H, Hu. simpl. rewrite Hb. reflexivity.
Qed.

Lemma proxyAgent_with_auth (env : ConnectEnv) (c : GrassClient) u user pass :
  proxyConfigured c = true ->
  parsedProxy env = inr u ->
  truthy (username u) && truthy (password u) = true ->
  decodeURIComponent env (username u) = inr user ->
  decodeURIComponent env (password u) = inr pass ->
  outcome (proxyAgent env c) =
  Resolve (Some (agentFor c u (Some (user ++ ":" ++ pass)))).
Proof.
  intros H Hu Hb H1 H2. unfold proxyAgent, proxyAuth. unfold_monad.
  rewrite H, Hu. simpl. rewrite Hb, H1, H2. reflexivity.
Qed.

Example connect_direct_opens :
  connect (directEnv (Opened 5000)) freshClient =
  (Resolve tt, openClient,
   [NewWebSocket endpoint (connectOptions freshClient None);
    SetTimeout 30000; WsOnce EvOpen; WsOnce EvError; ClearTimeout;
    Log Info "Connected via proxy: null"]).
Proof. reflexivity. Qed.

Example connect_unparsable_proxy :
  connect (mkConnectEnv (inl (mkError "Invalid URL")) (fun s => inr s)
                        (Opened 5000))
          (constructor "user-1" (Some "not a url") "browser-1" 0) =
  (Reject (mkError "Invalid proxy URL: Invalid URL"),
   constructor "user-1" (Some "not a url") "browser-1" 0, []).
Proof. reflexivity. Qed.

(** C1. The code does not record the opening.  [connect()] has no write
    to the liveness timestamp: an object constructed at clock reading 0
    whose transport opens at clock reading 5000 comes out of a successful
    [connect] with the timestamp still 0, earlier than the opening, where
    the claim has it at 5000 or later.  The staleness check of the tick
    relies on what the claim says.  Across [reconnects], each session
    after the first is judged at its first tick on the 92 s the first
    session left, found stale and terminated, having written nothing but
    its auth reply, and the timestamp never moves again. *)
Theorem C1_opening_not_recorded :
  connect (directEnv (Opened 5000)) freshClient =
    (Resolve tt, openClient,
     [NewWebSocket endpoint (connectOptions freshClient None);
      SetTimeout 30000; WsOnce EvOpen; WsOnce EvError; ClearTimeout;
      Log Info "Connected via proxy: null"])
  /\ lastHeartbeat openClient = 0
  /\ lastHeartbeat openClient < 5000
  /\ outcome (start reconnects freshClient) = Resolve Looping
  /\ sent (trace (start reconnects freshClient)) =
     [authPayload freshClient (VStr "abc123") 2000;
      pingMessage "ping-1"; pongMessage;
      pingMessage "ping-1"; pongMessage;
      pingMessage "ping-1"; pongMessage;
      authPayload freshClient (VStr "abc123") 112000;
      authPayload freshClient (VStr "abc123") 154000]
  /\ filter isTerminate (trace (start reconnects freshClient)) =
     [WsTerminate; WsTerminate]
  /\ lastHeartbeat (final (start reconnects freshClient)) = 92000.
Proof. repeat split. Qed.

(** C2, as stated, fails: with the proxy http://alice@10.0.0.1:8080
    (a user name and no password) the agent is built, without
    credentials, and [connect] goes on to open the transport. *)
Lemma C2_lone_username_accepted :
  oneCredentialMissing userOnlyURL
  /\ proxyAgent (userOnlyEnv (Opened 5000)) proxiedClient =
     (Resolve (Some (agentFor proxiedClient userOnlyURL None)),
      proxiedClient, [])
  /\ connect (userOnlyEnv (Opened 5000)) proxiedClient =
     (Resolve tt,
      set_ws (Some (mkWebSocket OPEN)) proxiedClient,
      [NewWebSocket endpoint
         (connectOptions proxiedClient
            (Some (agentFor proxiedClient userOnlyURL None)));
       SetTimeout 30000; WsOnce EvOpen; WsOnce EvError; ClearTimeout;
       Log Info "Connected via proxy: http://alice@10.0.0.1:8080"]).
Proof. repeat split. Qed.

(** C2, amended. When the configured proxy URL parses and exactly one of
    its user name and password is present, proxy construction does not
    fail: the agent is built with no credentials at all (the lone part is
    dropped, nothing is decoded) and [connect()] goes on to create the
    transport through that agent.  Credentials are passed to the agent
    only when both parts are present, each percent-decoded and joined by
    a colon. *)
Theorem C2_lone_credential_dropped
        (env : ConnectEnv) (c : GrassClient) (u : URL)
        (Hproxy : proxyConfigured c = true)
        (Hurl : parsedProxy env = inr u)
        (Hone : oneCredentialMissing u) :
  proxyAgent env c = (Resolve (Some (agentFor c u None)), c, [])
  /\ agent_auth (agentFor c u None) = None
  /\ (exists rest,
        trace (connect env c) =
        (opening c (Some (agentFor c u None)) ++ rest)%list)
  /\ (forall at_, firstEvent env = Opened at_ ->
        outcome (connect env c) = Resolve tt)
  /\ (forall env' u' user pass,
        parsedProxy env' = inr u' ->
        truthy (username u') && truthy (password u') = true ->
        decodeURIComponent env' (username u') = inr user ->
        decodeURIComponent env' (password u') = inr pass ->
        outcome (proxyAgent env' c) =
        Resolve (Some (agentFor c u' (Some (user ++ ":" ++ pass))))).
Proof.
  assert (Hb : truthy (username u) && truthy (password u) = false).
  { unfold oneCredentialMissing in Hone.
    destruct (truthy (username u)), (truthy (password u));
      simpl in *; congruence. }
  pose proof (proxyAgent_without_auth env c u Hproxy Hurl Hb) as Hag.
  split; [rewrite proxyAgent_pure, Hag; reflexivity|].
  split; [reflexivity|].
  split; [|split].
  - rewrite connect_run, Hag. cbv zeta.
    destruct (firstEvent env); eexists; reflexivity.
  - intros at_ Hev. rewrite connect_run, Hag, Hev. reflexivity.
  - intros env' u' user pass Hu' Hb' H1 H2.
    now apply proxyAgent_with_auth.
Qed.

(** C2, amended, on the proxy http://alice@10.0.0.1:8080. *)
Lemma C2_lone_credential_dropped_witness :
  proxyAgent (userOnlyEnv (Opened 5000)) proxiedClient =
  (Resolve (Some (agentFor proxiedClient userOnlyURL None)),
   proxiedClient, []).
Proof.
  apply (C2_lone_credential_dropped (userOnlyEnv (Opened 5000))
           proxiedClient userOnlyURL); reflexivity.
Defined.

(** C7. An attempt (the proxy agent, if any, having been built) on which
    neither the open nor the error observer runs within the
    connect-timeout window, 30 s, rejects with "Connection timeout", and
    the last thing done before the rejection is to terminate the
    transport; no graceful close is asked for.  An attempt whose error
    observer runs first rejects with the transport's own error, the
    timer cleared and the transport not terminated. *)
Theorem C7_connect_failures
        (env : ConnectEnv) (c : GrassClient) (ag : option AgentOptions)
        (Hconf : configured c)
        (Hagent : outcome (proxyAgent env c) = Resolve ag) :
  let c0 := set_ws (Some (mkWebSocket CONNECTING)) c in
  let armed :=
    [ NewWebSocket endpoint (connectOptions c ag); SetTimeout 30000;
      WsOnce EvOpen; WsOnce EvError ] in
  (firstEvent env = NothingInTime ->
     connect env c =
       (Reject (mkError "Connection timeout"), c0,
        (armed ++ [WsTerminate])%list)
     /\ ~ In WsClose (trace (connect env c)))
  /\ (forall e, firstEvent env = Errored e ->
     connect env c = (Reject e, c0, (armed ++ [ClearTimeout])%list)
     /\ ~ In WsTerminate (trace (connect env c))).
Proof.
  destruct Hconf as [_ Hct]. cbv zeta.
  rewrite connect_run, Hagent. cbv zeta. unfold opening. rewrite Hct.
  split.
  - intros ->. split; [reflexivity|].
    unfold trace; cbn. intuition discriminate.
  - intros e ->. split; [reflexivity|].
    unfold trace; cbn. intuition discriminate.
Qed.

(** C7 on a fresh object without proxy: nothing happens within the
    window, and the transport reports ECONNREFUSED. *)
Lemma C7_connect_failures_witness :
  connect (directEnv NothingInTime) freshClient =
    (Reject (mkError "Connection timeout"),
     set_ws (Some (mkWebSocket CONNECTING)) freshClient,
     [NewWebSocket endpoint (connectOptions freshClient None);
      SetTimeout 30000; WsOnce EvOpen; WsOnce EvError; WsTerminate])
  /\ connect (directEnv (Errored (mkError "connect ECONNREFUSED")))
             freshClient =
    (Reject (mkError "connect ECONNREFUSED"),
     set_ws (Some (mkWebSocket CONNECTING)) freshClient,
     [NewWebSocket endpoint (connectOptions freshClient None);
      SetTimeout 30000; WsOnce EvOpen; WsOnce EvError; ClearTimeout]).
Proof.
  split.
  - apply (C7_connect_failures (directEnv NothingInTime) freshClient None);
      [split; reflexivity | reflexivity | reflexivity].
  - apply (C7_connect_failures
             (directEnv (Errored (mkError "connect ECONNREFUSED")))
             freshClient None);
      [split; reflexivity | reflexivity | reflexivity].
Defined.

(** ** authenticate *)

Lemma isOpen_ws (c : GrassClient) :
  isOpen c = true -> exists w, ws c = Some w.
Proof.
  unfold isOpen. destruct (ws c) as [w|]; [eauto|discriminate].
Qed.

(** The paths of [authenticate] on a challenge that parses to an object
    literal, the transport being open. *)
Lemma authenticate_object_run
      (fields : list (string * Value)) (now : Z) (reply : SendEnv)
      (c : GrassClient) :
  isOpen c = true ->
  let p := authPayload c (lookup "id" fields) now in
  let c1 := interfered (meanwhile reply) c in
  let waited :=
    [SetTimeout (connectionTimeout c); WsOnce EvMessage; ClearTimeout] in
  authenticate (Challenge (inr (VObj fields)) now reply) c =
  match completion reply with
  | Completed None =>
      (Resolve tt, c1,
       (waited ++ [SetTimeout 10000; WsSend p; ClearTimeout;
                   Log Info "Authentication successful"])%list)
  | Completed (Some e) =>
      (Reject (mkError ("Authentication failed: " ++ message e)), c1,
       (waited ++ [SetTimeout 10000; WsSend p; ClearTimeout])%list)
  | NotInTime =>
      (Reject (mkError "Authentication failed: Send message timeout"), c1,
       (waited ++ [SetTimeout 10000; WsSend p])%list)
  end.
Proof.
  intros Hopen p c1 waited.
  destruct (isOpen_ws c Hopen) as [w Hw].
  unfold authenticate, sendAuthPayload, getProp. unfold_monad.
  rewrite Hw. cbn -[authPayload lookup sendMessage].
  rewrite sendMessage_run, Hopen. fold p c1.
  destruct (completion reply) as [[e|]|]; reflexivity.
Qed.

Example authenticate_abc123 :
  authenticate
    (Challenge (inr (VObj [("id", VStr "abc123")])) 1700000000999
               acknowledged)
    openClient =
  (Resolve tt, openClient,
   [SetTimeout 30000; WsOnce EvMessage; ClearTimeout; SetTimeout 10000;
    WsSend
      (VObj [ ("id", VStr "abc123");
              ("origin_action", VStr "AUTH");
              ("result",
                VObj [ ("browser_id", VStr "browser-1");
                       ("user_id", VStr "user-1");
                       ("user_agent", VStr userAgent);
                       ("timestamp", VNum 1700000000);
                       ("device_type", VStr "desktop");
                       ("version", VStr "4.28.1") ]) ]);
    ClearTimeout; Log Info "Authentication successful"]).
Proof. reflexivity. Qed.

Example authenticate_null_challenge :
  outcome (authenticate (Challenge (inr VNull) 0 acknowledged) openClient) =
  Reject (mkError
    "Authentication failed: Cannot read properties of null (reading 'id')").
Proof. reflexivity. Qed.

Example authenticate_silence :
  authenticate NoChallengeInTime openClient =
  (Reject (mkError "Authentication timeout"), openClient,
   [SetTimeout 30000; WsOnce EvMessage]).
Proof. reflexivity. Qed.

(** C9. When the first inbound message parses to an object, the
    transport being open, exactly one payload is written back and it is
    the auth payload: its id is the challenge's id, its origin_action is
    AUTH, and its result carries the configured user identifier as
    user_id, the object's instance identifier as browser_id, desktop as
    device_type and, as timestamp, the clock reading in whole seconds
    (milliseconds divided by 1000, rounded down).  If that write is
    acknowledged without error, [authenticate] resolves. *)
Theorem C9_auth_payload
        (fields : list (string * Value)) (now : Z) (reply : SendEnv)
        (c : GrassClient) (Hopen : transportOpen c) :
  let p := authPayload c (lookup "id" fields) now in
  let r := authenticate (Challenge (inr (VObj fields)) now reply) c in
  sent (trace r) = [p]
  /\ field "id" p = lookup "id" fields
  /\ field "origin_action" p = VStr "AUTH"
  /\ field "user_id" (field "result" p) = VStr (userId c)
  /\ field "browser_id" (field "result" p) = VStr (browserId c)
  /\ field "device_type" (field "result" p) = VStr "desktop"
  /\ (exists seconds,
        field "timestamp" (field "result" p) = VNum seconds
        /\ 1000 * seconds <= now < 1000 * seconds + 1000)
  /\ (completion reply = Completed None -> outcome r = Resolve tt).
Proof.
  apply isOpen_transportOpen in Hopen. cbv zeta.
  rewrite (authenticate_object_run fields now reply c Hopen). cbv zeta.
  split.
  { destruct (completion reply) as [[e|]|]; reflexivity. }
  do 5 (split; [reflexivity|]).
  split.
  - exists (now / 1000). split; [reflexivity|].
    pose proof (Z.div_mod now 1000 ltac:(lia)).
    pose proof (Z.mod_pos_bound now 1000 ltac:(lia)). lia.
  - intros ->. reflexivity.
Qed.

(** C9 on the challenge [{"id":"abc123"}], received at
    1700000000999 ms. *)
Lemma C9_auth_payload_witness :
  sent (trace (authenticate
                 (Challenge (inr (VObj [("id", VStr "abc123")]))
                            1700000000999 acknowledged)
                 openClient)) =
    [authPayload openClient (VStr "abc123") 1700000000999]
  /\ field "id" (authPayload openClient (VStr "abc123") 1700000000999) =
     VStr "abc123"
  /\ field "user_id"
       (field "result"
          (authPayload openClient (VStr "abc123") 1700000000999)) =
     VStr "user-1".
Proof.
  assert (Hopen : transportOpen openClient)
    by (exists (mkWebSocket OPEN); split; reflexivity).
  pose proof (C9_auth_payload [("id", VStr "abc123")] 1700000000999
                acknowledged openClient Hopen) as H.
  cbv zeta in H. destruct H as (Hsent & Hid & _ & Huser & _).
  split; [exact Hsent|]. split; [exact Hid|exact Huser].
Defined.

(** ** What no method touches *)

Lemma settings_interfered (l : list Interference) (c : GrassClient) :
  settings (interfered l c) = settings c.
Proof.
  unfold interfered. revert c.
  induction l as [|i l IH]; intros c; [reflexivity|].
  simpl. rewrite IH. destruct i; simpl; auto using settings_becomes.
Qed.

Lemma settings_configured (c c' : GrassClient) :
  settings c' = settings c -> configured c -> configured c'.
Proof.
  unfold settings, configured. intros [= _ _ _ Hd Ht] [H1 H2].
  split; congruence.
Qed.

Lemma settings_reconnectDelay (c c' : GrassClient) :
  settings c' = settings c -> reconnectDelay c' = reconnectDelay c.
Proof. unfold settings. now intros [= _ _ _ Hd _]. Qed.

Lemma quiet_ret {A} (a : A) : quiet (ret a).
Proof. intros c. split; reflexivity. Qed.

Lemma quiet_throw {A} (e : Error) : quiet (@throw A e).
Proof. intros c. split; reflexivity. Qed.

Lemma quiet_this : quiet this.
Proof. intros c. split; reflexivity. Qed.

Lemma quiet_emit (a : Action) : sleeps [a] = [] -> quiet (emit a).
Proof. intros H c. split; [reflexivity|exact H]. Qed.

Lemma quiet_assign (f : GrassClient -> GrassClient) :
  (forall c, settings (f c) = settings c) -> quiet (assign f).
Proof. intros H c. split; [apply H|reflexivity]. Qed.

Lemma quiet_liftE {A} (r : Error + A) : quiet (liftE r).
Proof. destruct r; [apply quiet_throw|apply quiet_ret]. Qed.

Lemma quiet_bind {A B} (m : M A) (f : A -> M B) :
  quiet m -> (forall a, quiet (f a)) -> quiet (bind m f).
Proof.
  intros Hm Hf c. specialize (Hm c). unfold bind.
  destruct (m c) as [[[a|e] c1] t1]; unfold final, trace in *; simpl in *.
  - specialize (Hf a c1). unfold final, trace in Hf.
    destruct (f a c1) as [[r c2] t2]; simpl in *.
    destruct Hm as [Hs Ht], Hf as [Hs' Ht'].
    split; [congruence|]. now rewrite sleeps_app, Ht, Ht'.
  - exact Hm.
Qed.

Lemma quiet_try_catch {A} (m : M A) (h : Error -> M A) :
  quiet m -> (forall e, quiet (h e)) -> quiet (try_catch m h).
Proof.
  intros Hm Hh c. specialize (Hm c). unfold try_catch.
  destruct (m c) as [[[a|e] c1] t1]; unfold final, trace in *; simpl in *.
  - exact Hm.
  - specialize (Hh e c1). unfold final, trace in Hh.
    destruct (h e c1) as [[r c2] t2]; simpl in *.
    destruct Hm as [Hs Ht], Hh as [Hs' Ht'].
    split; [congruence|]. now rewrite sleeps_app, Ht, Ht'.
Qed.

Lemma quiet_detached (m : M unit) : quiet m -> quiet (detached m).
Proof.
  intros Hm c. specialize (Hm c). unfold detached.
  destruct (m c) as [[[a|e] c1] t1]; unfold final, trace in *; simpl in *.
  - exact Hm.
  - destruct Hm as [Hs Ht]. split; [exact Hs|].
    now rewrite sleeps_app, Ht.
Qed.

Ltac quiet_step :=
  first
    [ apply quiet_bind; [|intro]
    | apply quiet_try_catch; [|intro]
    | apply quiet_detached
    | apply quiet_ret
    | apply quiet_throw
    | apply quiet_this
    | apply quiet_liftE
    | apply quiet_emit; reflexivity
    | apply quiet_assign; intro;
      first [ reflexivity
            | apply settings_becomes
            | apply settings_interfered ]
    | match goal with
      | |- quiet (match ?x with _ => _ end) => destruct x
      | |- quiet (if ?b then _ else _) => destruct b
      end ].

Ltac quiet_auto := repeat quiet_step.

Lemma quiet_sendMessage (payload : Value) (env : SendEnv) :
  quiet (sendMessage payload env).
Proof. unfold sendMessage, interfere. quiet_auto. Qed.

Lemma quiet_cleanup : quiet cleanup.
Proof. unfold cleanup. quiet_auto. Qed.

Lemma quiet_connect (env : ConnectEnv) : quiet (connect env).
Proof. unfold connect, proxyAgent, proxyAuth. quiet_auto. Qed.

Lemma quiet_authenticate (env : AuthEnv) : quiet (authenticate env).
Proof.
  unfold authenticate, sendAuthPayload. quiet_auto.
Qed.

Lemma quiet_startHeartbeat (fresh : Timer) : quiet (startHeartbeat fresh).
Proof. unfold startHeartbeat. quiet_auto. Qed.

Lemma quiet_heartbeatTick (env : TickEnv) : quiet (heartbeatTick env).
Proof.
  unfold heartbeatTick, terminateIfAny. quiet_auto.
Qed.

Lemma quiet_session (evs : list SessionEvent) : quiet (session evs).
Proof.
  induction evs as [|ev evs IH]; simpl; [apply quiet_ret|].
  apply quiet_bind; [|intros _; exact IH].
  destruct ev; simpl; quiet_auto.
Qed.

(** ** The supervisor loop *)

Lemma proxyAgent_settings (env : ConnectEnv) (c c' : GrassClient) :
  settings c' = settings c ->
  outcome (proxyAgent env c') = outcome (proxyAgent env c).
Proof.
  unfold settings. intros [= _ Hp _ _ Ht].
  unfold proxyAgent, proxyAuth, proxyConfigured. unfold_monad.
  rewrite Hp, Ht.
  destruct (proxy c) as [p|]; [|reflexivity].
  destruct (truthy p); [|reflexivity].
  destruct (parsedProxy env) as [e|u]; [reflexivity|]. simpl.
  destruct (truthy (username u) && truthy (password u)); [|reflexivity].
  destruct (decodeURIComponent env (username u)); [reflexivity|].
  destruct (decodeURIComponent env (password u)); reflexivity.
Qed.

Lemma strayed_settings (env : CycleEnv) (c c' : GrassClient) :
  settings c' = settings c -> strayed env c' = strayed env c.
Proof.
  intros H. unfold strayed, transportMade.
  now rewrite (proxyAgent_settings _ _ _ H).
Qed.

Lemma backoff_run (env : CycleEnv) (c : GrassClient) :
  backoff env c =
  (Resolve (afterBackoff env c), c,
   Sleep (reconnectDelay c) :: strayTrace env c).
Proof.
  unfold backoff, afterBackoff, strayTrace, strayed. unfold_monad.
  destruct (stray env) as [e|]; destruct (transportMade env c);
    reflexivity.
Qed.

Lemma afterBackoff_not_suspended (env : CycleEnv) (c : GrassClient) :
  afterBackoff env c <> StaysSuspended.
Proof.
  unfold afterBackoff. destruct (strayed env c); discriminate.
Qed.

Lemma afterBackoff_no_stray (env : CycleEnv) (c : GrassClient) :
  stray env = None -> afterBackoff env c = GoesRound.
Proof.
  intros H. unfold afterBackoff, strayed. rewrite H.
  destruct (transportMade env c); reflexivity.
Qed.

Lemma strayTrace_no_stray (env : CycleEnv) (c : GrassClient) :
  stray env = None -> strayTrace env c = [].
Proof.
  intros H. unfold strayTrace, strayed. rewrite H.
  destruct (transportMade env c); reflexivity.
Qed.

Lemma sleeps_strayTrace (env : CycleEnv) (c : GrassClient) :
  sleeps (strayTrace env c) = [].
Proof. unfold strayTrace. destruct (strayed env c); reflexivity. Qed.

Lemma sleptFor_afterBackoff (delay : Z) (env : CycleEnv) (c : GrassClient) :
  sleptFor delay (afterBackoff env c) = [delay].
Proof. unfold afterBackoff. destruct (strayed env c); reflexivity. Qed.

Lemma tryShape_backoff (env : CycleEnv) (c : GrassClient) :
  tryShape env c (backoff env c).
Proof.
  rewrite backoff_run. unfold tryShape, outcome, final, trace.
  cbn [fst snd sleeps]. split; [reflexivity|].
  rewrite sleeps_strayTrace, sleptFor_afterBackoff.
  split; [reflexivity|]. split.
  - intros _. apply afterBackoff_not_suspended.
  - intros Hnone e. rewrite (afterBackoff_no_stray _ _ Hnone). discriminate.
Qed.

Lemma tryShape_bind_quiet {A} (env : CycleEnv) (m : M A) (f : A -> M Turn)
      (c : GrassClient) :
  quiet m ->
  (forall a c1, settings c1 = settings c -> tryShape env c1 (f a c1)) ->
  tryShape env c (bind m f c).
Proof.
  intros Hm Hf. specialize (Hm c). unfold bind, tryShape.
  destruct (m c) as [[[a|e] c1] t1]; unfold outcome, final, trace in *;
    simpl in *; destruct Hm as [Hs Ht].
  - specialize (Hf a c1 Hs). unfold tryShape, outcome, final, trace in Hf.
    destruct (f a c1) as [[r c2] t2]; simpl in *.
    destruct Hf as [Hs' Hr]. split; [congruence|].
    rewrite sleeps_app, Ht. simpl.
    rewrite <- (settings_reconnectDelay c c1 Hs). exact Hr.
  - split; assumption.
Qed.

Lemma lifecycle_tryShape (env : CycleEnv) (c : GrassClient) :
  tryShape env c (lifecycle env c).
Proof.
  unfold lifecycle.
  apply tryShape_bind_quiet; [apply quiet_connect|intros _ c1 _].
  apply tryShape_bind_quiet; [apply quiet_authenticate|intros _ c2 _].
  apply tryShape_bind_quiet; [apply quiet_startHeartbeat|intros _ c3 _].
  apply tryShape_bind_quiet; [apply quiet_this|intros c' c4 _].
  apply tryShape_bind_quiet; [quiet_auto|intros _ c5 _].
  apply tryShape_bind_quiet; [apply quiet_session|intros _ c6 _].
  destruct (closes env) eqn:Hcloses.
  - apply tryShape_bind_quiet; [quiet_auto|intros _ c7 _].
    apply tryShape_bind_quiet; [apply quiet_this|intros c'' c8 _].
    apply tryShape_bind_quiet; [quiet_auto|intros _ c9 _].
    apply tryShape_bind_quiet; [apply quiet_cleanup|intros _ c10 _].
    apply tryShape_backoff.
  - unfold tryShape. unfold_monad. simpl. rewrite Hcloses.
    repeat split; discriminate.
Qed.

Lemma recover_run (env : CycleEnv) (e : Error) (c : GrassClient) :
  recover env e c =
  (Resolve (afterBackoff env (cleaned c)), cleaned c,
   (Log Err ("Connection error: " ++ message e)
      :: cleanupActions c
      ++ Sleep (reconnectDelay c) :: strayTrace env (cleaned c))%list).
Proof.
  unfold recover. unfold bind at 1. unfold emit at 1.
  unfold bind at 1. rewrite cleanup_run, backoff_run. reflexivity.
Qed.

Lemma sleeps_cleanupActions (c : GrassClient) :
  sleeps (cleanupActions c) = [].
Proof.
  unfold cleanupActions.
  destruct (heartbeatInterval c), (ws c) as [[[]]|]; reflexivity.
Qed.

(** A rejection inside the [try] block is caught: the error is logged,
    [cleanup] runs on the object as the failure left it and the backoff
    delay follows. *)
Lemma iteration_caught (env : CycleEnv) (c : GrassClient) e c1 t1 :
  lifecycle env c = (Reject e, c1, t1) ->
  iteration env c =
  (Resolve (afterBackoff env (cleaned c1)), cleaned c1,
   (t1 ++ Log Err ("Connection error: " ++ message e)
       :: cleanupActions c1
       ++ Sleep (reconnectDelay c1) :: strayTrace env (cleaned c1))%list).
Proof.
  intros H. unfold iteration.
  rewrite (try_catch_Reject _ _ _ _ _ _ H), recover_run. reflexivity.
Qed.

Lemma iteration_turnShape (env : CycleEnv) (c : GrassClient) :
  turnShape env c (iteration env c).
Proof.
  pose proof (lifecycle_tryShape env c) as H.
  unfold tryShape in H. unfold turnShape.
  destruct (lifecycle env c) as [[[turn|e] c1] t1] eqn:Hrun;
    unfold outcome, final, trace in H; simpl in H; destruct H as [Hs Hr].
  - unfold iteration. rewrite (try_catch_Resolve _ _ _ _ _ _ Hrun).
    split; [exact Hs|]. exists turn. split; [reflexivity|exact Hr].
  - rewrite (iteration_caught env c e c1 t1 Hrun).
    unfold outcome, final, trace. cbn [fst snd].
    split; [exact Hs|]. exists (afterBackoff env (cleaned c1)).
    split; [reflexivity|]. split; [|split].
    + rewrite sleeps_app, Hr. cbn [sleeps app].
      rewrite sleeps_app, sleeps_cleanupActions. cbn [sleeps app].
      rewrite sleeps_strayTrace, sleptFor_afterBackoff.
      now rewrite (settings_reconnectDelay c c1 Hs).
    + intros _. apply afterBackoff_not_suspended.
    + intros Hnone e'. rewrite (afterBackoff_no_stray _ _ Hnone).
      discriminate.
Qed.

(** [start] never rejects, keeps the settings and only ever sleeps for
    the configured delay; when every cycle's close event arrives and no
    abandoned transport emits an error, it has slept once per cycle and
    is still looping. *)
Lemma start_shape (envs : list CycleEnv) (c : GrassClient) :
  settings (final (start envs c)) = settings c
  /\ (exists status, outcome (start envs c) = Resolve status)
  /\ Forall (fun ms => ms = reconnectDelay c)
            (sleeps (trace (start envs c)))
  /\ (Forall (fun env => closes env = true /\ stray env = None) envs ->
      outcome (start envs c) = Resolve Looping
      /\ sleeps (trace (start envs c)) =
         repeat (reconnectDelay c) (length envs)).
Proof.
  revert c. induction envs as [|env rest IH]; intros c.
  - cbn. split; [reflexivity|]. split; [eauto|].
    split; [constructor|]. intros _. split; reflexivity.
  - simpl. pose proof (iteration_turnShape env c) as Hturn.
    unfold turnShape in Hturn.
    destruct (iteration env c) as [[r c1] t1] eqn:Hrun.
    unfold outcome, final, trace in Hturn. simpl in Hturn.
    destruct Hturn as [Hs [turn [-> [Hsl [Hcl Hst]]]]].
    rewrite (bind_Resolve _ _ _ _ _ _ Hrun).
    unfold outcome, final, trace. simpl.
    destruct turn as [| |e].
    + destruct (IH c1) as [Hs' [[status Hstatus] [Hall Hlen]]].
      unfold outcome, final, trace in *.
      rewrite sleeps_app, Hsl.
      rewrite (settings_reconnectDelay c c1 Hs) in Hall, Hlen.
      split; [congruence|]. split; [eauto|].
      split; [constructor; [reflexivity|exact Hall]|].
      intros Hends. inversion Hends as [|? ? _ Hrest]; subst.
      destruct (Hlen Hrest) as [Hloop Hslept].
      split; [exact Hloop|]. simpl. now rewrite Hslept.
    + simpl. rewrite app_nil_r, Hsl.
      split; [exact Hs|]. split; [eauto|]. split; [constructor|].
      intros Hends. inversion Hends as [|? ? [Hend _] _]; subst.
      now contradiction (Hcl Hend).
    + simpl. rewrite app_nil_r, Hsl.
      split; [exact Hs|]. split; [eauto|].
      split; [repeat constructor|].
      intros Hends. inversion Hends as [|? ? [_ Hnone] _]; subst.
      now contradiction (Hst Hnone e).
Qed.

(** The promise of a tick never rejects, so the loop never sees an
    unhandled rejection from the timer. *)
Lemma heartbeatTick_resolves (env : TickEnv) (c : GrassClient) :
  outcome (heartbeatTick env c) = Resolve tt.
Proof.
  rewrite heartbeatTick_run. cbv zeta.
  destruct (isOpen c); [|reflexivity].
  destruct (tick_now env - lastHeartbeat c >? 45000); [reflexivity|].
  destruct (completion (first_send env)) as [[e1|]|]; try reflexivity.
  destruct (isOpen _); [|reflexivity].
  destruct (completion (second_send env)) as [[e2|]|]; reflexivity.
Qed.




Example start_refused_once :
  start [refused] freshClient =
  (Resolve Looping,
   freshClient,
   [NewWebSocket endpoint (connectOptions freshClient None);
    SetTimeout 30000; WsOnce EvOpen; WsOnce EvError; ClearTimeout;
    Log Err "Connection error: connect ECONNREFUSED";
    WsRemoveAllListeners; Sleep 10000]).
Proof. reflexivity. Qed.

Example start_served_once :
  start [served] freshClient =
  (Resolve Looping,
   set_lastHeartbeat 32000 freshClient,
   [NewWebSocket endpoint (connectOptions freshClient None);
    SetTimeout 30000; WsOnce EvOpen; WsOnce EvError; ClearTimeout;
    Log Info "Connected via proxy: null";
    SetTimeout 30000; WsOnce EvMessage; ClearTimeout;
    SetTimeout 10000;
    WsSend (authPayload freshClient (VStr "abc123") 2000);
    ClearTimeout; Log Info "Authentication successful";
    SetInterval 1%nat 30000;
    WsOnce EvClose; WsOn EvPong;
    SetTimeout 10000; WsSend (pingMessage "ping-1"); ClearTimeout;
    SetTimeout 10000; WsSend pongMessage; ClearTimeout;
    Log Warn "Connection closed for proxy: null";
    ClearInterval 1%nat; WsRemoveAllListeners;
    Sleep 10000]).
Proof. reflexivity. Qed.

Example start_suspended_without_close :
  outcome (start [mkCycleEnv (connecting served) (authenticating served)
                             1%nat [] false None; refused]
                 freshClient) =
  Resolve Suspended.
Proof. reflexivity. Qed.

(** The transport opens, no challenge arrives, [cleanup] detaches the
    observers and asks for a close, and the transport then reports a
    reset: nothing is left to take the error, and the cycle that was to
    follow never starts. *)
Example start_ends_on_unobserved_error :
  start [resetWhileClosing; served] freshClient =
  (Resolve (Died (mkError "read ECONNRESET")),
   freshClient,
   [NewWebSocket endpoint (connectOptions freshClient None);
    SetTimeout 30000; WsOnce EvOpen; WsOnce EvError; ClearTimeout;
    Log Info "Connected via proxy: null";
    SetTimeout 30000; WsOnce EvMessage;
    Log Err "Connection error: Authentication timeout";
    WsRemoveAllListeners; WsClose; Sleep 10000;
    UncaughtException (mkError "read ECONNRESET")]).
Proof. reflexivity. Qed.




(** ** Calls a method never makes *)

Lemma never_In {A} (bad : Action -> bool) (m : M A) :
  neverDoes bad m -> forall c a, In a (trace (m c)) -> bad a = false.
Proof.
  intros H c a Hin. specialize (H c).
  destruct (bad a) eqn:Hbad; [|reflexivity].
  rewrite <- H. symmetry. apply existsb_exists. eauto.
Qed.

Lemma never_ret {A} bad (a : A) : neverDoes bad (ret a).
Proof. intros c. reflexivity. Qed.

Lemma never_throw {A} bad (e : Error) : neverDoes bad (@throw A e).
Proof. intros c. reflexivity. Qed.

Lemma never_this bad : neverDoes bad this.
Proof. intros c. reflexivity. Qed.

Lemma never_assign bad (f : GrassClient -> GrassClient) :
  neverDoes bad (assign f).
Proof. intros c. reflexivity. Qed.

Lemma never_liftE {A} bad (r : Error + A) : neverDoes bad (liftE r).
Proof. destruct r; intros c; reflexivity. Qed.

Lemma never_emit bad (a : Action) : bad a = false -> neverDoes bad (emit a).
Proof. intros H c. cbn. now rewrite H. Qed.

Lemma never_bind {A B} bad (m : M A) (f : A -> M B) :
  neverDoes bad m -> (forall a, neverDoes bad (f a)) ->
  neverDoes bad (bind m f).
Proof.
  intros Hm Hf c. specialize (Hm c). unfold bind.
  destruct (m c) as [[[a|e] c1] t1]; unfold trace in *; simpl in *.
  - specialize (Hf a c1). unfold trace in Hf.
    destruct (f a c1) as [[r c2] t2]; simpl in *.
    now rewrite existsb_app, Hm, Hf.
  - exact Hm.
Qed.

Lemma never_try_catch {A} bad (m : M A) (h : Error -> M A) :
  neverDoes bad m -> (forall e, neverDoes bad (h e)) ->
  neverDoes bad (try_catch m h).
Proof.
  intros Hm Hh c. specialize (Hm c). unfold try_catch.
  destruct (m c) as [[[a|e] c1] t1]; unfold trace in *; simpl in *.
  - exact Hm.
  - specialize (Hh e c1). unfold trace in Hh.
    destruct (h e c1) as [[r c2] t2]; simpl in *.
    now rewrite existsb_app, Hm, Hh.
Qed.

(** A detached computation that always resolves adds nothing. *)
Lemma never_detached bad (m : M unit) :
  (forall c, outcome (m c) = Resolve tt) ->
  neverDoes bad m -> neverDoes bad (detached m).
Proof.
  intros Hres Hm c. specialize (Hm c). specialize (Hres c).
  unfold detached. unfold outcome, trace in *.
  destruct (m c) as [[[a|e] c1] t1]; simpl in *; [exact Hm|discriminate].
Qed.

Ltac never_step :=
  first
    [ apply never_bind; [|intro]
    | apply never_try_catch; [|intro]
    | apply never_ret
    | apply never_throw
    | apply never_this
    | apply never_liftE
    | apply never_assign
    | apply never_emit; reflexivity
    | match goal with
      | |- neverDoes _ (match ?x with _ => _ end) => destruct x
      | |- neverDoes _ (if ?b then _ else _) => destruct b
      end ].

Ltac never_auto := repeat never_step.

Lemma never_session bad (evs : list SessionEvent) :
  (forall env, neverDoes bad (heartbeatTick env)) ->
  neverDoes bad (session evs).
Proof.
  intros Htick. induction evs as [|ev evs IH]; simpl; [apply never_ret|].
  apply never_bind; [|intros _; exact IH].
  destruct ev; simpl; [|apply never_assign..].
  apply never_detached; [apply heartbeatTick_resolves|apply Htick].
Qed.

Lemma never_start bad (envs : list CycleEnv) :
  (forall env, neverDoes bad (iteration env)) ->
  neverDoes bad (start envs).
Proof.
  intros Hit. induction envs as [|env rest IH]; simpl; [apply never_ret|].
  apply never_bind; [apply Hit|].
  intros [| |e]; [exact IH|apply never_ret..].
Qed.

Lemma not_In_of_never {A} (bad : Action -> bool) (m : M A) (a : Action) :
  bad a = true -> neverDoes bad m -> forall c, ~ In a (trace (m c)).
Proof.
  intros Hbad Hm c Hin. pose proof (never_In bad m Hm c a Hin). congruence.
Qed.

Lemma unhandled_tick (env : TickEnv) :
  neverDoes isUnhandled (heartbeatTick env).
Proof. unfold heartbeatTick, terminateIfAny. never_auto. Qed.

Lemma unhandled_iteration (env : CycleEnv) :
  neverDoes isUnhandled (iteration env).
Proof.
  unfold iteration, lifecycle, recover.
  repeat first
    [ apply never_session; intro; apply unhandled_tick
    | progress unfold connect, proxyAgent, proxyAuth, authenticate,
        sendAuthPayload, startHeartbeat, cleanup, backoff
    | never_step ].
Qed.

(** X1. The promise of the timer callback never rejects, and no run of
    [start], however long and whatever the platform does, ever leaves a
    rejection unhandled. *)
Theorem timer_callback_never_rejects :
  (forall env c, outcome (heartbeatTick env c) = Resolve tt)
  /\ (forall envs c e,
        ~ In (UnhandledRejection e) (trace (start envs c))).
Proof.
  split; [apply heartbeatTick_resolves|].
  intros envs c e.
  apply (not_In_of_never isUnhandled); [reflexivity|].
  apply never_start. apply unhandled_iteration.
Qed.

(** ** Where the transport is terminated and where it is closed *)

Lemma connect_terminates_only_on_timeout (env : ConnectEnv) (c : GrassClient) :
  In WsTerminate (trace (connect env c)) ->
  firstEvent env = NothingInTime
  /\ outcome (connect env c) = Reject (mkError "Connection timeout").
Proof.
  rewrite connect_run.
  destruct (outcome (proxyAgent env c)) as [ag|e]; [|intros []].
  cbv zeta. unfold opening.
  destruct (firstEvent env); unfold trace, outcome; cbn;
    intuition discriminate.
Qed.

(** X2. Abrupt termination is confined to two places, the connect timeout
    and the heartbeat tick: [authenticate], [sendMessage],
    [startHeartbeat], [cleanup] and the [catch] block of [start] never
    terminate the transport, and [connect] does so only on the path that
    rejects with "Connection timeout".  A graceful close is asked for by
    [cleanup] alone: [connect], [authenticate], [sendMessage],
    [startHeartbeat] and the heartbeat tick never close the transport. *)
Theorem terminate_and_close_confined :
  (forall env c, ~ In WsTerminate (trace (authenticate env c)))
  /\ (forall payload env c,
        ~ In WsTerminate (trace (sendMessage payload env c)))
  /\ (forall fresh c, ~ In WsTerminate (trace (startHeartbeat fresh c)))
  /\ (forall c, ~ In WsTerminate (trace (cleanup c)))
  /\ (forall env e c, ~ In WsTerminate (trace (recover env e c)))
  /\ (forall env c,
        In WsTerminate (trace (connect env c)) ->
        firstEvent env = NothingInTime
        /\ outcome (connect env c) = Reject (mkError "Connection timeout"))
  /\ (forall env c, ~ In WsClose (trace (connect env c)))
  /\ (forall env c, ~ In WsClose (trace (authenticate env c)))
  /\ (forall payload env c,
        ~ In WsClose (trace (sendMessage payload env c)))
  /\ (forall fresh c, ~ In WsClose (trace (startHeartbeat fresh c)))
  /\ (forall env c, ~ In WsClose (trace (heartbeatTick env c))).
Proof.
  repeat split; intros;
    try (apply (not_In_of_never isTerminate); [reflexivity|]);
    try (apply (not_In_of_never isClose); [reflexivity|]);
    try (unfold authenticate, sendAuthPayload, sendMessage, interfere,
           startHeartbeat, cleanup, recover, backoff, connect, proxyAgent,
           proxyAuth, heartbeatTick, terminateIfAny;
         never_auto; fail);
    match goal with
    | H : In WsTerminate (trace (connect _ _)) |- _ =>
        destruct (connect_terminates_only_on_timeout _ _ H); assumption
    end.
Qed.

(** ** What a run of the loop keeps and what it leaves behind *)

Lemma lifecycle_unfold (env : CycleEnv) :
  lifecycle env =
  (connect (connecting env) ;;
   authenticate (authenticating env) ;;
   afterAuthentication env).
Proof. reflexivity. Qed.

(** X3. Nothing [start] does, over any number of cycles, changes the user
    identifier, the proxy, the instance identifier drawn by the
    constructor, the backoff delay or the connect timeout. *)
Theorem identity_and_settings_survive_start
        (envs : list CycleEnv) (c : GrassClient) :
  userId (final (start envs c)) = userId c
  /\ proxy (final (start envs c)) = proxy c
  /\ browserId (final (start envs c)) = browserId c
  /\ reconnectDelay (final (start envs c)) = reconnectDelay c
  /\ connectionTimeout (final (start envs c)) = connectionTimeout c.
Proof.
  destruct (start_shape envs c) as [Hs _]. unfold settings in Hs.
  injection Hs as H1 H2 H3 H4 H5. repeat split; assumption.
Qed.

Lemma tornDown_bind {A} (m : M A) (f : A -> M Turn) (c : GrassClient) :
  (forall a c1, tornDown (f a c1)) -> tornDown (bind m f c).
Proof.
  intros Hf. unfold bind, tornDown.
  destruct (m c) as [[[a|e] c1] t1].
  - specialize (Hf a c1). unfold tornDown, outcome, final in *.
    destruct (f a c1) as [[r c2] t2]. exact Hf.
  - unfold outcome. simpl. discriminate.
Qed.

Lemma tornDown_lifecycle (env : CycleEnv) (c : GrassClient) :
  tornDown (lifecycle env c).
Proof.
  unfold lifecycle.
  do 6 (apply tornDown_bind; intros ? ?).
  destruct (closes env).
  - do 3 (apply tornDown_bind; intros ? ?).
    unfold bind at 1. rewrite cleanup_run, backoff_run.
    unfold tornDown, final. cbn [fst snd]. intros _. split; reflexivity.
  - unfold tornDown, ret, outcome. simpl. discriminate.
Qed.

(** X4. Whenever a turn of the loop ends and the loop goes round again, by
    the close event or by a caught error, the object has no transport
    handle and no heartbeat timer left: the next [connect] never starts
    on a half torn down session. *)
Theorem teardown_completes_each_turn
        (env : CycleEnv) (c : GrassClient)
        (Hagain : outcome (iteration env c) = Resolve GoesRound) :
  ws (final (iteration env c)) = None
  /\ heartbeatInterval (final (iteration env c)) = None.
Proof.
  revert Hagain. unfold iteration.
  pose proof (tornDown_lifecycle env c) as Hlife.
  destruct (lifecycle env c) as [[[again|e] c1] t1] eqn:Hrun.
  - rewrite (try_catch_Resolve _ _ _ _ _ _ Hrun). exact Hlife.
  - rewrite (try_catch_Reject _ _ _ _ _ _ Hrun), recover_run.
    intros _. split; reflexivity.
Qed.

(** A session that was served and then closed: the handle and the timer
    it had set are gone when the turn ends. *)
Lemma teardown_completes_each_turn_witness :
  ws (final (iteration served freshClient)) = None
  /\ heartbeatInterval (final (iteration served freshClient)) = None.
Proof.
  apply (teardown_completes_each_turn served freshClient). reflexivity.
Defined.

(** ** authenticate, every path *)

Lemma authenticate_run (env : AuthEnv) (c : GrassClient) :
  authenticate env c =
  match ws c with
  | None =>
      (Reject (mkError "Cannot read properties of null (reading 'once')"),
       c, [SetTimeout (connectionTimeout c)])
  | Some _ =>
      match env with
      | NoChallengeInTime =>
          (Reject (mkError "Authentication timeout"), c,
           [SetTimeout (connectionTimeout c); WsOnce EvMessage])
      | Challenge parsed now reply =>
          match parsed with
          | inl e => (Reject (authFailure e), c, challenged c)
          | inr response =>
              match getProp response "id" with
              | inl e => (Reject (authFailure e), c, challenged c)
              | inr authId =>
                  let p := authPayload c authId now in
                  let c1 := interfered (meanwhile reply) c in
                  if isOpen c then
                    match completion reply with
                    | Completed None =>
                        (Resolve tt, c1,
                         (challenged c ++
                          [SetTimeout 10000; WsSend p; ClearTimeout;
                           Log Info "Authentication successful"])%list)
                    | Completed (Some e) =>
                        (Reject (authFailure e), c1,
                         (challenged c ++
                          [SetTimeout 10000; WsSend p; ClearTimeout])%list)
                    | NotInTime =>
                        (Reject
                           (authFailure (mkError "Send message timeout")),
                         c1,
                         (challenged c ++
                          [SetTimeout 10000; WsSend p])%list)
                    end
                  else
                    (Reject
                       (authFailure (mkError "WebSocket not connected")),
                     c, challenged c)
              end
          end
      end
  end.
Proof.
  unfold authenticate, sendAuthPayload. unfold_monad.
  destruct (ws c) as [w|] eqn:Hw; [|reflexivity].
  destruct env as [parsed now reply|]; [|reflexivity].
  destruct parsed as [e|response]; [reflexivity|].
  cbn -[authPayload getProp sendMessage].
  destruct (getProp response "id") as [e|authId]; [reflexivity|].
  cbn -[authPayload sendMessage].
  rewrite sendMessage_run.
  destruct (isOpen c); [|reflexivity].
  destruct (completion reply) as [[e|]|]; reflexivity.
Qed.

(** X5. [authenticate] writes to the transport at most once, and only when
    a challenge arrived in time, parsed, was neither null nor undefined,
    and found the transport open; it resolves only after that one write
    was acknowledged without error.  Every failure that follows the
    arrival of the challenge (unparsable text, a null challenge, a
    transport that is not open, a write error or timeout) is reported as
    "Authentication failed: " followed by the cause; silence is reported
    as "Authentication timeout". *)
Theorem authenticate_failures_send_nothing
        (env : AuthEnv) (c : GrassClient) :
  (length (sent (trace (authenticate env c))) <= 1)%nat
  /\ (outcome (authenticate env c) = Resolve tt ->
      length (sent (trace (authenticate env c))) = 1%nat
      /\ In (Log Info "Authentication successful")
            (trace (authenticate env c)))
  /\ (forall e now reply,
        env = Challenge (inl e) now reply -> ws c <> None ->
        authenticate env c = (Reject (authFailure e), c, challenged c))
  /\ (forall now reply,
        env = Challenge (inr VNull) now reply -> ws c <> None ->
        authenticate env c =
        (Reject (authFailure
                   (mkError
                      "Cannot read properties of null (reading 'id')")),
         c, challenged c))
  /\ (forall response now reply,
        env = Challenge (inr response) now reply ->
        ws c <> None -> isOpen c = false ->
        sent (trace (authenticate env c)) = [])
  /\ (env = NoChallengeInTime -> ws c <> None ->
      authenticate env c =
      (Reject (mkError "Authentication timeout"), c,
       [SetTimeout (connectionTimeout c); WsOnce EvMessage]))
  /\ (forall e, outcome (authenticate env c) = Reject e ->
        ws c <> None -> env <> NoChallengeInTime ->
        exists cause, e = authFailure cause).
Proof.
  rewrite authenticate_run.
  destruct (ws c) as [w|] eqn:Hw.
  2:{ unfold outcome, trace; cbn.
      repeat split; try congruence; try lia; intros; congruence. }
  destruct env as [parsed now reply|].
  2:{ unfold outcome, trace; cbn.
      repeat split; try congruence; try lia; intros; congruence. }
  destruct parsed as [e|response].
  { unfold outcome, trace; cbn.
    repeat split; try congruence; try lia; intros;
      try congruence; try discriminate.
    match goal with H : Reject _ = Reject _ |- _ => injection H as <- end.
    eexists; reflexivity. }
  destruct (getProp response "id") as [e|authId] eqn:Hid.
  { unfold outcome, trace; cbn.
    repeat split; try congruence; try lia; intros;
      try congruence; try discriminate.
    - match goal with H : Challenge _ _ _ = Challenge _ _ _ |- _ =>
        injection H as -> _ _ end.
      cbn in Hid. injection Hid as <-. reflexivity.
    - match goal with H : Reject _ = Reject _ |- _ => injection H as <- end.
      eexists; reflexivity. }
  cbv zeta.
  destruct (isOpen c) eqn:Hopen.
  - destruct (completion reply) as [[e|]|];
      unfold outcome, trace, challenged; cbn -[authPayload];
      repeat split; try congruence; try lia; intros;
        try congruence; try discriminate; auto 10;
      try (match goal with H : Challenge _ _ _ = Challenge _ _ _ |- _ =>
             injection H as -> _ _ end; cbn in Hid; discriminate);
      try (match goal with H : Reject _ = Reject _ |- _ =>
             injection H as <- end; eexists; reflexivity).
  - unfold outcome, trace; cbn.
    repeat split; try congruence; try lia; intros;
      try congruence; try discriminate;
      try (match goal with H : Challenge _ _ _ = Challenge _ _ _ |- _ =>
             injection H as -> _ _ end; cbn in Hid; discriminate);
      try (match goal with H : Reject _ = Reject _ |- _ =>
             injection H as <- end; eexists; reflexivity).
Qed.

(** [authenticate] on an open session: silence, and a challenge that is
    not JSON. *)
Lemma authenticate_failures_send_nothing_witness :
  authenticate NoChallengeInTime openClient =
    (Reject (mkError "Authentication timeout"), openClient,
     [SetTimeout 30000; WsOnce EvMessage])
  /\ authenticate
       (Challenge (inl (mkError "Unexpected token h in JSON at position 0"))
                  2000 acknowledged)
       openClient =
    (Reject (mkError
       "Authentication failed: Unexpected token h in JSON at position 0"),
     openClient,
     [SetTimeout 30000; WsOnce EvMessage; ClearTimeout]).
Proof.
  split.
  - apply (authenticate_failures_send_nothing NoChallengeInTime openClient);
      [reflexivity|discriminate].
  - destruct (authenticate_failures_send_nothing
                (Challenge
                   (inl (mkError "Unexpected token h in JSON at position 0"))
                   2000 acknowledged)
                openClient) as (_ & _ & Hparse & _).
    refine (Hparse (mkError "Unexpected token h in JSON at position 0")
                   2000 acknowledged eq_refl _).
    discriminate.
Defined.

(** X6. The challenge's id is not validated.  Whenever the first inbound
    message parses to a value whose [id] is undefined (an object without
    that key, a number, a string, a boolean, an array), the transport
    being open and the write acknowledged, [authenticate] still answers,
    with a payload whose id is undefined, and reports success. *)
Theorem challenge_without_id_is_answered
        (response : Value) (now : Z) (reply : SendEnv) (c : GrassClient)
        (Hopen : transportOpen c)
        (Hack : completion reply = Completed None)
        (Hid : getProp response "id" = inr VUndefined) :
  let r := authenticate (Challenge (inr response) now reply) c in
  outcome r = Resolve tt
  /\ sent (trace r) = [authPayload c VUndefined now]
  /\ field "id" (authPayload c VUndefined now) = VUndefined
  /\ In (Log Info "Authentication successful") (trace r).
Proof.
  apply isOpen_transportOpen in Hopen.
  destruct (isOpen_ws c Hopen) as [w Hw].
  cbv zeta. rewrite authenticate_run, Hw, Hid. cbv zeta.
  rewrite Hopen, Hack. unfold outcome, trace, challenged.
  cbn -[authPayload].
  repeat split; auto 10.
Qed.

(** The values whose [id] reads as undefined. *)
Lemma id_undefined_values :
  (forall fields, lookup "id" fields = VUndefined ->
                  getProp (VObj fields) "id" = inr VUndefined)
  /\ (forall b, getProp (VBool b) "id" = inr VUndefined)
  /\ (forall n, getProp (VNum n) "id" = inr VUndefined)
  /\ (forall s, getProp (VStr s) "id" = inr VUndefined)
  /\ (forall items, getProp (VArr items) "id" = inr VUndefined).
Proof.
  repeat split; intros; simpl; congruence.
Qed.

(** An empty object as challenge. *)
Lemma challenge_without_id_is_answered_witness :
  outcome (authenticate (Challenge (inr (VObj [])) 2000 acknowledged)
                        openClient) = Resolve tt
  /\ sent (trace (authenticate
                    (Challenge (inr (VObj [])) 2000 acknowledged)
                    openClient)) =
     [authPayload openClient VUndefined 2000].
Proof.
  assert (Hopen : transportOpen openClient)
    by (exists (mkWebSocket OPEN); split; reflexivity).
  pose proof (challenge_without_id_is_answered (VObj []) 2000 acknowledged
                openClient Hopen eq_refl eq_refl) as H.
  cbv zeta in H. destruct H as (Hres & Hsent & _).
  split; [exact Hres|exact Hsent].
Defined.

(** ** One transport a turn, one timer a session *)

Lemma bind_suffix {A B} bad (m : M A) (f : A -> M B) (c : GrassClient) :
  (forall a, neverDoes bad (f a)) ->
  exists suf,
    trace (bind m f c) = (trace (m c) ++ suf)%list
    /\ existsb bad suf = false.
Proof.
  intros Hf. unfold bind.
  destruct (m c) as [[[a|e] c1] t1].
  - specialize (Hf a c1). unfold trace in *.
    destruct (f a c1) as [[r c2] t2]. simpl in *. eauto.
  - exists []. unfold trace. simpl. now rewrite app_nil_r.
Qed.

Lemma try_catch_suffix {A} bad (m : M A) (h : Error -> M A)
      (c : GrassClient) :
  (forall e, neverDoes bad (h e)) ->
  exists suf,
    trace (try_catch m h c) = (trace (m c) ++ suf)%list
    /\ existsb bad suf = false.
Proof.
  intros Hh. unfold try_catch.
  destruct (m c) as [[[a|e] c1] t1].
  - exists []. unfold trace. simpl. now rewrite app_nil_r.
  - specialize (Hh e c1). unfold trace in *.
    destruct (h e c1) as [[r c2] t2]. simpl in *. eauto.
Qed.

Lemma filter_none {X} (p : X -> bool) (l : list X) :
  existsb p l = false -> filter p l = [].
Proof.
  induction l as [|x l IH]; simpl; [reflexivity|].
  destruct (p x); simpl; [discriminate|exact IH].
Qed.

Lemma create_tick (env : TickEnv) : neverDoes isCreate (heartbeatTick env).
Proof. unfold heartbeatTick, terminateIfAny. never_auto. Qed.

Lemma create_recover (env : CycleEnv) (e : Error) :
  neverDoes isCreate (recover env e).
Proof. unfold recover, cleanup, backoff. never_auto. Qed.

Lemma create_after_connect (env : CycleEnv) :
  neverDoes isCreate
    (authenticate (authenticating env) ;; afterAuthentication env).
Proof.
  unfold afterAuthentication.
  repeat first
    [ apply never_session; intro; apply create_tick
    | progress unfold authenticate, sendAuthPayload, startHeartbeat, cleanup,
        backoff
    | never_step ].
Qed.

(** The trace of a turn is the trace of its [connect] followed by calls
    none of which creates a transport. *)
Lemma iteration_after_connect (env : CycleEnv) (c : GrassClient) :
  exists suf,
    trace (iteration env c) =
    (trace (connect (connecting env) c) ++ suf)%list
    /\ existsb isCreate suf = false.
Proof.
  unfold iteration.
  destruct (try_catch_suffix isCreate (lifecycle env) (recover env) c
              (create_recover env)) as [s1 [H1 Hs1]].
  rewrite lifecycle_unfold in H1 |- *.
  destruct (bind_suffix isCreate (connect (connecting env))
              (fun _ => authenticate (authenticating env) ;;
                        afterAuthentication env) c
              (fun _ => create_after_connect env)) as [s2 [H2 Hs2]].
  exists (s2 ++ s1)%list. split.
  - rewrite H1, H2, app_assoc. reflexivity.
  - now rewrite existsb_app, Hs1, Hs2.
Qed.

Lemma created_connect (env : ConnectEnv) (c : GrassClient) :
  created (trace (connect env c)) =
  match outcome (proxyAgent env c) with
  | Resolve ag => [NewWebSocket endpoint (connectOptions c ag)]
  | Reject _ => []
  end.
Proof.
  rewrite connect_run.
  destruct (outcome (proxyAgent env c)) as [ag|e]; [|reflexivity].
  cbv zeta. destruct (firstEvent env); reflexivity.
Qed.

Lemma created_iteration (env : CycleEnv) (c : GrassClient) :
  created (trace (iteration env c)) =
  match outcome (proxyAgent (connecting env) c) with
  | Resolve ag => [NewWebSocket endpoint (connectOptions c ag)]
  | Reject _ => []
  end.
Proof.
  destruct (iteration_after_connect env c) as [suf [-> Hsuf]].
  unfold created. rewrite filter_app, (filter_none _ _ Hsuf), app_nil_r.
  apply created_connect.
Qed.

(** The transport [backoff] speaks of is the one this turn created: a
    turn has made a transport exactly when its trace shows one, and the
    answer is the same on every object with the settings the turn
    started with, such as the one [cleanup] hands to [backoff]. *)
Lemma transportMade_created (env : CycleEnv) (c c' : GrassClient) :
  settings c' = settings c ->
  transportMade env c' =
  existsb isCreate (trace (iteration env c)).
Proof.
  intros Hs. unfold transportMade.
  rewrite (proxyAgent_settings _ _ _ Hs).
  pose proof (created_iteration env c) as H. unfold created in H.
  destruct (outcome (proxyAgent (connecting env) c)) as [ag|e].
  - symmetry. apply existsb_exists.
    exists (NewWebSocket endpoint (connectOptions c ag)).
    split; [|reflexivity].
    apply (proj1 (filter_In isCreate _ (trace (iteration env c)))).
    rewrite H. now left.
  - symmetry. destruct (existsb isCreate (trace (iteration env c))) eqn:Hex;
      [|reflexivity].
    apply existsb_exists in Hex. destruct Hex as [a [Hin Ha]].
    assert (Hf : In a (filter isCreate (trace (iteration env c))))
      by (apply filter_In; now split).
    rewrite H in Hf. contradiction.
Qed.

(** X7. A turn of the loop creates at most one transport, and exactly one
    unless the proxy URL is rejected: the one [connect] creates, to the
    fixed endpoint.  Over a whole run [start] therefore creates at most
    as many transports as it has made turns. *)
Theorem one_transport_per_turn (envs : list CycleEnv) (c : GrassClient) :
  (forall env,
     (length (created (trace (iteration env c))) <= 1)%nat
     /\ (forall ag,
           outcome (proxyAgent (connecting env) c) = Resolve ag ->
           created (trace (iteration env c)) =
           [NewWebSocket endpoint (connectOptions c ag)])
     /\ (forall e,
           outcome (proxyAgent (connecting env) c) = Reject e ->
           created (trace (iteration env c)) = []))
  /\ (length (created (trace (start envs c))) <= length envs)%nat.
Proof.
  split.
  - intros env. rewrite created_iteration.
    destruct (outcome (proxyAgent (connecting env) c)) as [ag|e];
      repeat split; simpl; try lia; congruence.
  - revert c. induction envs as [|env rest IH]; intros c; [simpl; lia|].
    simpl.
    pose proof (created_iteration env c) as Hone.
    destruct (iteration_turnShape env c) as [_ [turn [Hres _]]].
    destruct (iteration env c) as [[r c1] t1] eqn:Hrun.
    unfold outcome in Hres. simpl in Hres. subst r.
    rewrite (bind_Resolve _ _ _ _ _ _ Hrun).
    unfold trace in *. cbn [fst snd] in *.
    unfold created in *. rewrite filter_app, length_app.
    assert (Hle : (length (filter isCreate t1) <= 1)%nat).
    { rewrite Hone.
      destruct (outcome (proxyAgent (connecting env) c)); simpl; lia. }
    destruct turn as [| |e'].
    + specialize (IH c1). lia.
    + simpl. lia.
    + simpl. lia.
Qed.

Lemma authenticate_resolved_logged (env : AuthEnv) (c c2 : GrassClient) t2 :
  authenticate env c = (Resolve tt, c2, t2) ->
  In (Log Info "Authentication successful") t2.
Proof.
  rewrite authenticate_run.
  destruct (ws c); [|discriminate].
  destruct env as [[e|response] now reply|]; try discriminate.
  destruct (getProp response "id"); [discriminate|]. cbv zeta.
  destruct (isOpen c); [|discriminate].
  destruct (completion reply) as [[e|]|]; try discriminate.
  intros [= _ <-]. simpl. auto 10.
Qed.

Lemma arm_connect (env : ConnectEnv) : neverDoes isArm (connect env).
Proof. unfold connect, proxyAgent, proxyAuth. never_auto. Qed.

Lemma arm_authenticate (env : AuthEnv) : neverDoes isArm (authenticate env).
Proof. unfold authenticate, sendAuthPayload. never_auto. Qed.

Lemma arm_recover (env : CycleEnv) (e : Error) :
  neverDoes isArm (recover env e).
Proof. unfold recover, cleanup, backoff. never_auto. Qed.

Lemma period_tick (env : TickEnv) :
  neverDoes isOddInterval (heartbeatTick env).
Proof. unfold heartbeatTick, terminateIfAny. never_auto. Qed.

Lemma period_iteration (env : CycleEnv) :
  neverDoes isOddInterval (iteration env).
Proof.
  unfold iteration, lifecycle, recover.
  repeat first
    [ apply never_session; intro; apply period_tick
    | progress unfold connect, proxyAgent, proxyAuth, authenticate,
        sendAuthPayload, startHeartbeat, cleanup, backoff
    | never_step ].
Qed.

Lemma existsb_In_false {X} (p : X -> bool) (l : list X) (x : X) :
  existsb p l = false -> In x l -> p x = false.
Proof.
  intros H Hin. destruct (p x) eqn:Hp; [|reflexivity].
  rewrite <- H. symmetry. apply existsb_exists. eauto.
Qed.

(** X8. The heartbeat timer is armed only in a turn whose [connect] and
    [authenticate] have both resolved, after the line "Authentication
    successful", and always with a period of 30000 ms: a turn that fails
    to connect or to authenticate arms no timer at all. *)
Theorem heartbeat_armed_only_after_authentication
        (env : CycleEnv) (c : GrassClient) (t : Timer) (ms : Z)
        (Harmed : In (SetInterval t ms) (trace (iteration env c))) :
  ms = 30000
  /\ outcome (connect (connecting env) c) = Resolve tt
  /\ outcome (authenticate (authenticating env)
                (final (connect (connecting env) c))) = Resolve tt
  /\ In (Log Info "Authentication successful") (trace (iteration env c)).
Proof.
  split.
  { pose proof (never_In _ _ (period_iteration env) c _ Harmed) as H.
    simpl in H. apply negb_false_iff, Z.eqb_eq in H. exact H. }
  revert Harmed. unfold iteration. rewrite lifecycle_unfold.
  pose proof (arm_connect (connecting env) c) as Hc.
  destruct (connect (connecting env) c) as [[[[]|e] c1] t1] eqn:Hrun1;
    unfold trace in Hc; simpl in Hc.
  - pose proof (arm_authenticate (authenticating env) c1) as Ha.
    unfold outcome, final. cbn [fst snd].
    destruct (authenticate (authenticating env) c1)
      as [[[[]|e] c2] t2] eqn:Hrun2; unfold trace in Ha; simpl in Ha.
    + intros _. split; [reflexivity|]. split; [reflexivity|].
      pose proof (authenticate_resolved_logged _ _ _ _ Hrun2) as Hlog.
      destruct (try_catch_suffix isArm
                  (connect (connecting env) ;;
                   authenticate (authenticating env) ;;
                   afterAuthentication env) (recover env) c
                  (arm_recover env))
        as [suf [-> _]].
      rewrite (bind_Resolve _ _ _ _ _ _ Hrun1).
      rewrite (bind_Resolve _ _ _ _ _ _ Hrun2).
      unfold trace. cbn [fst snd].
      apply in_or_app. left. apply in_or_app. right.
      apply in_or_app. left. exact Hlog.
    + assert (Hlife :
        (connect (connecting env) ;;
         authenticate (authenticating env) ;;
         afterAuthentication env) c = (Reject e, c2, (t1 ++ t2)%list)).
      { rewrite (bind_Resolve _ _ _ _ _ _ Hrun1).
        rewrite (bind_Reject_run _ _ _ _ _ _ Hrun2). reflexivity. }
      rewrite (try_catch_Reject _ _ _ _ _ _ Hlife).
      pose proof (arm_recover env e c2) as Hr.
      unfold trace in *. cbn [fst snd]. intros Hin. exfalso.
      assert (Hnone : existsb isArm
                        ((t1 ++ t2) ++ snd (recover env e c2))%list = false)
        by now rewrite !existsb_app, Hc, Ha, Hr.
      pose proof (existsb_In_false _ _ _ Hnone Hin). discriminate.
  - assert (Hlife :
      (connect (connecting env) ;;
       authenticate (authenticating env) ;;
       afterAuthentication env) c = (Reject e, c1, t1)).
    { apply (bind_Reject_run _ _ _ _ _ _ Hrun1). }
    rewrite (try_catch_Reject _ _ _ _ _ _ Hlife).
    pose proof (arm_recover env e c1) as Hr.
    unfold trace in *. cbn [fst snd]. intros Hin. exfalso.
    assert (Hnone : existsb isArm (t1 ++ snd (recover env e c1))%list
                    = false)
      by now rewrite !existsb_app, Hc, Hr.
    pose proof (existsb_In_false _ _ _ Hnone Hin). discriminate.
Qed.

(** A served session arms its timer. *)
Lemma heartbeat_armed_only_after_authentication_witness :
  In (Log Info "Authentication successful")
     (trace (iteration served freshClient)).
Proof.
  apply (heartbeat_armed_only_after_authentication served freshClient
           1%nat 30000).
  simpl. auto 20.
Defined.

(** ** The liveness timestamp across a session *)

Lemma keepsTimestamp_bind {A B} (m : M A) (f : A -> M B) :
  keepsTimestamp m -> (forall a, keepsTimestamp (f a)) ->
  keepsTimestamp (bind m f).
Proof.
  intros Hm Hf c. specialize (Hm c). unfold bind.
  destruct (m c) as [[[a|e] c1] t1]; unfold final in *; simpl in *.
  - specialize (Hf a c1). unfold final in Hf.
    destruct (f a c1) as [[r c2] t2]. simpl in *. congruence.
  - exact Hm.
Qed.

Lemma keepsTimestamp_connect (env : ConnectEnv) :
  keepsTimestamp (connect env).
Proof.
  intros c. rewrite connect_run.
  destruct (outcome (proxyAgent env c)); [|reflexivity].
  cbv zeta. destruct (firstEvent env); unfold final; cbn [fst snd];
    rewrite ?lastHeartbeat_becomes; reflexivity.
Qed.

Lemma lastHeartbeat_interfered (l : list Interference) (c : GrassClient) :
  noPong l -> lastHeartbeat (interfered l c) = lastHeartbeat c.
Proof.
  unfold interfered. revert c.
  induction l as [|i l IH]; intros c Hno; [reflexivity|].
  simpl. rewrite IH.
  - destruct i; simpl.
    + exfalso. apply (Hno now). now left.
    + apply lastHeartbeat_becomes.
    + reflexivity.
  - intros now Hin. apply (Hno now). now right.
Qed.

Lemma keepsTimestamp_authenticate (env : AuthEnv) :
  noPongDuring env -> keepsTimestamp (authenticate env).
Proof.
  intros Hno c. rewrite authenticate_run.
  destruct (ws c); [|reflexivity].
  destruct env as [[e|response] now reply|]; try reflexivity.
  destruct (getProp response "id"); [reflexivity|]. cbv zeta.
  destruct (isOpen c); [|reflexivity].
  simpl in Hno.
  destruct (completion reply) as [[e|]|]; unfold final; cbn [fst snd];
    now apply lastHeartbeat_interfered.
Qed.

Lemma keepsTimestamp_startHeartbeat (fresh : Timer) :
  keepsTimestamp (startHeartbeat fresh).
Proof.
  intros c. unfold startHeartbeat. unfold_monad.
  destruct (heartbeatInterval c); reflexivity.
Qed.

(** X9. Establishing a session does not refresh the liveness timestamp:
    after [connect], [authenticate] and [startHeartbeat] it is the one
    the object had before, left by the constructor or by the previous
    session.  So if the transport is open and the first tick fires more
    than 45 s after that older signal, the tick takes the staleness path
    on the new session: it warns, terminates the transport and sends
    nothing. *)
Theorem first_tick_judges_inherited_timestamp
        (cenv : ConnectEnv) (aenv : AuthEnv) (fresh : Timer)
        (tenv : TickEnv) (c : GrassClient)
        (Hquiet : noPongDuring aenv)
        (Hopen : transportOpen (final (establish cenv aenv fresh c)))
        (Hstale : tick_now tenv - lastHeartbeat c > 45000) :
  lastHeartbeat (final (establish cenv aenv fresh c)) = lastHeartbeat c
  /\ heartbeatTick tenv (final (establish cenv aenv fresh c)) =
     (Resolve tt, final (establish cenv aenv fresh c),
      [Log Warn "Heartbeat timeout, reconnecting..."; WsTerminate]).
Proof.
  assert (Hkeep : lastHeartbeat (final (establish cenv aenv fresh c))
                  = lastHeartbeat c).
  { unfold establish.
    apply keepsTimestamp_bind; [apply keepsTimestamp_connect|intros _].
    apply keepsTimestamp_bind;
      [now apply keepsTimestamp_authenticate|intros _].
    apply keepsTimestamp_startHeartbeat. }
  split; [exact Hkeep|].
  apply isOpen_transportOpen in Hopen.
  rewrite heartbeatTick_run. cbv zeta. rewrite Hopen, Hkeep.
  assert (Hgt : (tick_now tenv - lastHeartbeat c >? 45000) = true)
    by (apply Z.gtb_lt; lia).
  now rewrite Hgt.
Qed.

(** An object constructed at clock reading 0 whose transport takes 20 s
    to open: the first tick, 30 s after authentication, comes at 51 s. *)
Lemma first_tick_judges_inherited_timestamp_witness :
  heartbeatTick (goodTick 51000)
    (final (establish slowOpening
              (Challenge (inr (VObj [("id", VStr "abc123")])) 21000
                         acknowledged)
              1%nat freshClient)) =
  (Resolve tt,
   set_heartbeatInterval (Some 1%nat) openClient,
   [Log Warn "Heartbeat timeout, reconnecting..."; WsTerminate]).
Proof.
  apply (first_tick_judges_inherited_timestamp slowOpening
           (Challenge (inr (VObj [("id", VStr "abc123")])) 21000
                      acknowledged)
           1%nat (goodTick 51000) freshClient).
  - intros now [].
  - exists (mkWebSocket OPEN). split; reflexivity.
  - simpl. lia.
Defined.

(** Pongs observed meanwhile touch nothing but the timestamp. *)
Lemma onlyPongs_ws (l : list Interference) (c : GrassClient) :
  onlyPongs l -> ws (interfered l c) = ws c.
Proof.
  unfold interfered. revert c.
  induction l as [|i l IH]; intros c Honly; [reflexivity|].
  cbn [fold_left]. rewrite IH.
  - destruct (Honly i (or_introl eq_refl)) as [now ->]. reflexivity.
  - intros j Hj. apply Honly. now right.
Qed.

Lemma onlyPongs_isOpen (l : list Interference) (c : GrassClient) :
  onlyPongs l -> isOpen (interfered l c) = isOpen c.
Proof. intros H. unfold isOpen. now rewrite (onlyPongs_ws l c H). Qed.

(** A tick on an open, fresh session whose two writes are acknowledged
    while the transport stays open: both messages are written, and the
    timestamp is the clock reading the tick started with. *)
Lemma heartbeatTick_undisturbed (env : TickEnv) (c : GrassClient) :
  isOpen c = true ->
  tick_now env - lastHeartbeat c <= 45000 ->
  undisturbed (first_send env) -> undisturbed (second_send env) ->
  outcome (heartbeatTick env c) = Resolve tt
  /\ trace (heartbeatTick env c) =
     [SetTimeout 10000; WsSend (pingMessage (tick_uuid env)); ClearTimeout;
      SetTimeout 10000; WsSend pongMessage; ClearTimeout]
  /\ ws (final (heartbeatTick env c)) = ws c
  /\ lastHeartbeat (final (heartbeatTick env c)) = tick_now env.
Proof.
  intros Hopen Hfresh [Hk1 Hp1] [Hk2 Hp2].
  assert (Hle : (tick_now env - lastHeartbeat c >? 45000) = false)
    by (rewrite Z.gtb_ltb; apply Z.ltb_ge; lia).
  rewrite heartbeatTick_run. cbv zeta. rewrite Hopen, Hle, Hk1, Hk2.
  rewrite (onlyPongs_isOpen _ c Hp1), Hopen.
  unfold outcome, trace, final. cbn [fst snd].
  repeat split.
  cbn [ws set_lastHeartbeat].
  now rewrite (onlyPongs_ws _ _ Hp2), (onlyPongs_ws _ _ Hp1).
Qed.

(** X10. A session is never cut while signals keep coming.  With the
    transport open and staying open, if every tick starts at most 45 s
    after the clock reading the timestamp then holds and has its two
    writes acknowledged, then no tick ever terminates the transport, each
    tick sends its two messages, and the timestamp ends at the clock
    reading of the last event that wrote it.  The timestamp holds the
    inherited value at first; after a tick, the clock reading the tick
    started with; after a pong observed between ticks, the clock reading
    of that pong.  Pongs may also be observed while a tick is writing, but
    they do not count: the tick overwrites them with its own, earlier
    reading when its writes are done. *)
Theorem well_paced_session_survives
        (evs : list SessionEvent) (c : GrassClient)
        (Hopen : transportOpen c)
        (Hpaced : wellPaced (lastHeartbeat c) evs) :
  outcome (session evs c) = Resolve tt
  /\ ~ In WsTerminate (trace (session evs c))
  /\ length (sent (trace (session evs c))) = (2 * ticks evs)%nat
  /\ ws (final (session evs c)) = ws c
  /\ lastHeartbeat (final (session evs c)) = lastSignal (lastHeartbeat c) evs.
Proof.
  apply isOpen_transportOpen in Hopen.
  revert c Hopen Hpaced.
  induction evs as [|ev rest IH]; intros c Hopen Hpaced.
  - simpl. repeat split; auto.
  - destruct ev as [env|now|rs]; simpl in Hpaced.
    + destruct Hpaced as (Hfresh & H1 & H2 & Hrest).
      destruct (heartbeatTick_undisturbed env c Hopen Hfresh H1 H2)
        as (Hout & Htr & Hws & Hlast).
      destruct (heartbeatTick env c) as [[r c1] t1] eqn:Hrun.
      unfold outcome, trace, final in Hout, Htr, Hws, Hlast.
      cbn [fst snd] in Hout, Htr, Hws, Hlast. subst r t1.
      assert (Hdet : sessionEvent (TimerFired env) c =
                     (Resolve tt, c1,
                      [SetTimeout 10000;
                       WsSend (pingMessage (tick_uuid env)); ClearTimeout;
                       SetTimeout 10000; WsSend pongMessage; ClearTimeout])).
      { simpl. unfold detached. now rewrite Hrun. }
      assert (Hopen1 : isOpen c1 = true)
        by (unfold isOpen in *; now rewrite Hws).
      rewrite <- Hlast in Hrest.
      destruct (IH c1 Hopen1 Hrest) as (Ho & Ht & Hs & Hw & Hl).
      cbn [session]. rewrite (bind_Resolve _ _ _ _ _ _ Hdet).
      unfold outcome, final, trace in *. cbn [fst snd].
      split; [exact Ho|]. split; [|split; [|split]].
      * intros Hin. apply in_app_or in Hin. destruct Hin as [Hin|Hin].
        -- simpl in Hin. intuition discriminate.
        -- now apply Ht.
      * rewrite sent_app, length_app, Hs. simpl. lia.
      * congruence.
      * cbn [lastSignal]. now rewrite <- Hlast.
    + assert (Hev : sessionEvent (Pong now) c =
                    (Resolve tt, set_lastHeartbeat now c, []))
        by reflexivity.
      destruct (IH (set_lastHeartbeat now c) Hopen Hpaced)
        as (Ho & Ht & Hs & Hw & Hl).
      cbn [session]. rewrite (bind_Resolve _ _ _ _ _ _ Hev).
      unfold outcome, final, trace in *. cbn [fst snd app].
      repeat split; assumption.
    + contradiction.
Qed.

(** The timestamp is 0.  A tick at 30 s, during whose second write a pong
    is observed at 31 s; a pong at 40 s; a tick at 60 s: four messages,
    no termination, timestamp 60 s. *)
Lemma well_paced_session_survives_witness :
  length (sent (trace (session [TimerFired (pongedTick 30000 31000);
                                Pong 40000;
                                TimerFired (goodTick 60000)]
                               openClient))) = 4%nat
  /\ ~ In WsTerminate
        (trace (session [TimerFired (pongedTick 30000 31000); Pong 40000;
                         TimerFired (goodTick 60000)] openClient))
  /\ lastHeartbeat (final (session [TimerFired (pongedTick 30000 31000);
                                    Pong 40000;
                                    TimerFired (goodTick 60000)]
                                   openClient)) = 60000.
Proof.
  assert (Hopen : transportOpen openClient)
    by (exists (mkWebSocket OPEN); split; reflexivity).
  assert (Hpaced : wellPaced (lastHeartbeat openClient)
                     [TimerFired (pongedTick 30000 31000); Pong 40000;
                      TimerFired (goodTick 60000)]).
  { simpl. unfold undisturbed, onlyPongs. simpl.
    repeat split; try lia; intros i Hi;
      repeat (destruct Hi as [<-|Hi]; [eexists; reflexivity|]);
      contradiction. }
  destruct (well_paced_session_survives _ openClient Hopen Hpaced)
    as (_ & Hterm & Hsent & _ & Hlast).
  split; [exact Hsent|]. split; [exact Hterm|exact Hlast].
Defined.

(** A pong observed while a tick writes does not count.  The tick at 30 s
    overwrites the pong of 31 s, so the tick at 75.5 s, 44.5 s after that
    pong, finds a timestamp 45.5 s old and terminates the transport. *)
Example pong_during_write_does_not_count :
  session [TimerFired (pongedTick 30000 31000);
           TimerFired (goodTick 75500)] openClient =
  (Resolve tt, set_lastHeartbeat 30000 openClient,
   [SetTimeout 10000; WsSend (pingMessage "ping-1"); ClearTimeout;
    SetTimeout 10000; WsSend pongMessage; ClearTimeout;
    Log Warn "Heartbeat timeout, reconnecting..."; WsTerminate]).
Proof. reflexivity. Qed.

(** ** The heartbeat timer *)

Lemma liveTimers_app (live : list Timer) (t1 t2 : list Action) :
  liveTimers live (t1 ++ t2) = liveTimers (liveTimers live t1) t2.
Proof.
  revert live. induction t1 as [|a t1 IH]; intros live; [reflexivity|].
  destruct a; simpl; apply IH.
Qed.

Lemma remove_only (t : Timer) : remove Nat.eq_dec t [t] = [].
Proof. simpl. destruct (Nat.eq_dec t t); [reflexivity|congruence]. Qed.

Lemma timerCall_live (call : TimerCall) (c : GrassClient) :
  outcome (timerCall call c) = Resolve tt
  /\ liveTimers (remembered c) (trace (timerCall call c)) =
     remembered (final (timerCall call c)).
Proof.
  destruct call as [fresh|]; simpl.
  - unfold startHeartbeat, remembered. unfold_monad.
    destruct (heartbeatInterval c) as [t|]; simpl; [|auto].
    destruct (Nat.eq_dec t t); [auto|congruence].
  - rewrite cleanup_run. unfold outcome, final, trace, remembered,
      cleanupActions. cbn [fst snd].
    split; [reflexivity|].
    rewrite liveTimers_app.
    destruct (heartbeatInterval c) as [t|]; simpl;
      [destruct (Nat.eq_dec t t); [|congruence]|];
      destruct (ws c) as [[[]]|]; reflexivity.
Qed.

(** X11. However [startHeartbeat] and [cleanup] are called one after the
    other, the intervals armed and not yet cleared are exactly the one
    the object remembers in [heartbeatInterval]: never two at a time, and
    none once [cleanup] has run.  No call rejects. *)
Theorem at_most_one_heartbeat_timer
        (calls : list TimerCall) (c : GrassClient) :
  outcome (timerCalls calls c) = Resolve tt
  /\ liveTimers (remembered c) (trace (timerCalls calls c)) =
     remembered (final (timerCalls calls c))
  /\ (length (liveTimers (remembered c) (trace (timerCalls calls c)))
      <= 1)%nat
  /\ liveTimers (remembered c) (trace (timerCalls (calls ++ [Disarm]) c))
     = [].
Proof.
  assert (Hmain : forall calls c,
    outcome (timerCalls calls c) = Resolve tt
    /\ liveTimers (remembered c) (trace (timerCalls calls c)) =
       remembered (final (timerCalls calls c))).
  { clear. induction calls as [|call rest IH]; intros c.
    - split; reflexivity.
    - destruct (timerCall_live call c) as [Ho Hl].
      destruct (timerCall call c) as [[r c1] t1] eqn:Hrun.
      unfold outcome, final, trace in Ho, Hl. simpl in Ho, Hl. subst r.
      destruct (IH c1) as [Ho' Hl'].
      cbn [timerCalls]. rewrite (bind_Resolve _ _ _ _ _ _ Hrun).
      unfold outcome, final, trace in *. cbn [fst snd].
      split; [exact Ho'|]. now rewrite liveTimers_app, Hl. }
  destruct (Hmain calls c) as [Ho Hl].
  split; [exact Ho|]. split; [exact Hl|]. split.
  - rewrite Hl. unfold remembered.
    destruct (heartbeatInterval _); simpl; lia.
  - destruct (Hmain (calls ++ [Disarm])%list c) as [_ ->].
    clear. revert c. induction calls as [|call rest IH]; intros c.
    + simpl. unfold bind. rewrite cleanup_run. reflexivity.
    + cbn [app timerCalls].
      destruct (timerCall_live call c) as [Ho _].
      destruct (timerCall call c) as [[r c1] t1] eqn:Hrun.
      unfold outcome in Ho. simpl in Ho. subst r.
      rewrite (bind_Resolve _ _ _ _ _ _ Hrun).
      unfold final. cbn [fst snd]. apply IH.
Qed.

Example rearming_clears_first :
  trace (timerCalls [Arm 1%nat; Arm 2%nat; Disarm; Disarm] freshClient) =
  [SetInterval 1%nat 30000; ClearInterval 1%nat; SetInterval 2%nat 30000;
   ClearInterval 2%nat].
Proof. reflexivity. Qed.

(** ** The proxy *)

(** X12. A proxy URL that does not parse, or whose credentials do not
    percent-decode, makes [connect] reject with "Invalid proxy URL: "
    followed by the cause, before anything is done: no transport is
    created, no timer armed, and the object is left as it was. *)
Theorem invalid_proxy_fails_before_connecting
        (env : ConnectEnv) (c : GrassClient)
        (Hproxy : proxyConfigured c = true) :
  (forall e, parsedProxy env = inl e ->
     connect env c =
     (Reject (mkError ("Invalid proxy URL: " ++ message e)), c, []))
  /\ (forall u e,
        parsedProxy env = inr u ->
        truthy (username u) && truthy (password u) = true ->
        decodeURIComponent env (username u) = inl e ->
        connect env c =
        (Reject (mkError ("Invalid proxy URL: " ++ message e)), c, []))
  /\ (forall u user e,
        parsedProxy env = inr u ->
        truthy (username u) && truthy (password u) = true ->
        decodeURIComponent env (username u) = inr user ->
        decodeURIComponent env (password u) = inl e ->
        connect env c =
        (Reject (mkError ("Invalid proxy URL: " ++ message e)), c, [])).
Proof.
  repeat split; intros; rewrite connect_run;
    match goal with
    | |- context [outcome (proxyAgent ?env ?c)] =>
        replace (outcome (proxyAgent env c))
          with (@Reject (option AgentOptions)
                  (mkError ("Invalid proxy URL: " ++ message e)));
        [reflexivity|]
    end;
    unfold proxyAgent, proxyAuth; unfold_monad; rewrite Hproxy;
    repeat match goal with
           | H : _ = _ |- _ => rewrite H; clear H
           end; reflexivity.
Qed.

(** The proxy string is not a URL. *)
Lemma invalid_proxy_fails_before_connecting_witness :
  connect (mkConnectEnv (inl (mkError "Invalid URL")) (fun s => inr s)
                        (Opened 5000))
          (constructor "user-1" (Some "not a url") "browser-1" 0) =
  (Reject (mkError "Invalid proxy URL: Invalid URL"),
   constructor "user-1" (Some "not a url") "browser-1" 0, []).
Proof.
  destruct (invalid_proxy_fails_before_connecting
              (mkConnectEnv (inl (mkError "Invalid URL")) (fun s => inr s)
                            (Opened 5000))
              (constructor "user-1" (Some "not a url") "browser-1" 0)
              eq_refl) as [Hparse _].
  exact (Hparse (mkError "Invalid URL") eq_refl).
Defined.

Lemma proxyConfigured_settings (c c' : GrassClient) :
  settings c' = settings c -> proxyConfigured c' = proxyConfigured c.
Proof.
  unfold settings, proxyConfigured. intros [= _ Hp _ _ _]. now rewrite Hp.
Qed.

Lemma lifecycle_connect_rejected (env : CycleEnv) (c : GrassClient) e c1 t1 :
  connect (connecting env) c = (Reject e, c1, t1) ->
  lifecycle env c = (Reject e, c1, t1).
Proof.
  intros H. rewrite lifecycle_unfold. now apply bind_Reject_run.
Qed.

(** X13. With a proxy string that is not a URL the loop never gets as far as
    creating a transport: every turn logs the connection error, cleans
    up and sleeps, the loop goes round again, and so on for as many
    turns as one cares to run. *)
Theorem unparsable_proxy_never_connects
        (envs : list CycleEnv) (c : GrassClient)
        (Hproxy : proxyConfigured c = true)
        (Hbad : Forall (fun env =>
                          exists e, parsedProxy (connecting env) = inl e)
                       envs) :
  outcome (start envs c) = Resolve Looping
  /\ created (trace (start envs c)) = []
  /\ sleeps (trace (start envs c)) =
     repeat (reconnectDelay c) (length envs).
Proof.
  revert c Hproxy. induction Hbad as [|env rest [e He] _ IH];
    intros c Hproxy; [repeat split|].
  assert (Hconn : connect (connecting env) c =
                  (Reject (mkError ("Invalid proxy URL: " ++ message e)),
                   c, [])).
  { rewrite connect_run.
    now rewrite (proxyAgent_unparsable _ _ _ Hproxy He). }
  assert (Hkeep : settings (cleaned c) = settings c) by reflexivity.
  assert (Hnot : strayed env (cleaned c) = None).
  { rewrite (strayed_settings _ _ _ Hkeep). unfold strayed, transportMade.
    now rewrite (proxyAgent_unparsable _ _ _ Hproxy He). }
  pose proof (iteration_caught env c _ _ _
                (lifecycle_connect_rejected env c _ _ _ Hconn)) as Hit.
  unfold afterBackoff, strayTrace in Hit. rewrite Hnot in Hit.
  destruct (IH (cleaned c)) as (Ho & Hc & Hs).
  { now rewrite (proxyConfigured_settings _ _ Hkeep). }
  cbn [start]. rewrite (bind_Resolve _ _ _ _ _ _ Hit).
  unfold outcome, final, trace, created in *. cbn [fst snd].
  split; [exact Ho|]. split.
  - rewrite filter_app, Hc, app_nil_r. cbn [app filter isCreate].
    rewrite filter_app.
    assert (Hclean : filter isCreate (cleanupActions c) = []).
    { unfold cleanupActions.
      destruct (heartbeatInterval c), (ws c) as [[[]]|]; reflexivity. }
    now rewrite Hclean.
  - rewrite sleeps_app, Hs. cbn [app sleeps].
    rewrite sleeps_app, sleeps_cleanupActions. reflexivity.
Qed.

(** Three turns with the proxy string "not a url". *)
Lemma unparsable_proxy_never_connects_witness :
  created (trace (start [refused; refused; refused]
                        (constructor "user-1" (Some "not a url")
                                     "browser-1" 0))) = []
  /\ sleeps (trace (start [refused; refused; refused]
                          (constructor "user-1" (Some "not a url")
                                       "browser-1" 0))) =
     [10000; 10000; 10000].
Proof.
  apply (unparsable_proxy_never_connects [refused; refused; refused]
           (constructor "user-1" (Some "not a url") "browser-1" 0)).
  - reflexivity.
  - repeat constructor; exists (mkError "Invalid URL"); reflexivity.
Defined.

(** X14. Without a proxy, be it [null] or the empty string, [connect] never
    looks at the URL parser: it creates the transport to the fixed
    endpoint with no agent, whatever the parser would have said. *)
Theorem no_proxy_connects_directly
        (env : ConnectEnv) (c : GrassClient)
        (Hnone : proxy c = None \/ proxy c = Some "") :
  created (trace (connect env c)) =
    [NewWebSocket endpoint (connectOptions c None)]
  /\ agent (connectOptions c None) = None
  /\ (forall at_, firstEvent env = Opened at_ ->
        outcome (connect env c) = Resolve tt).
Proof.
  assert (Hoff : proxyConfigured c = false).
  { unfold proxyConfigured. destruct Hnone as [-> | ->]; reflexivity. }
  pose proof (proxyAgent_direct env c Hoff) as Hag.
  split; [rewrite created_connect, Hag; reflexivity|].
  split; [reflexivity|].
  intros at_ Hev. rewrite connect_run, Hag, Hev. reflexivity.
Qed.

(** An object built with the empty string as proxy. *)
Lemma no_proxy_connects_directly_witness :
  created (trace (connect (directEnv (Opened 5000))
                          (constructor "user-1" (Some "") "browser-1" 0))) =
  [NewWebSocket endpoint
     (connectOptions (constructor "user-1" (Some "") "browser-1" 0) None)].
Proof.
  apply (no_proxy_connects_directly (directEnv (Opened 5000))
           (constructor "user-1" (Some "") "browser-1" 0)).
  right. reflexivity.
Defined.

(** ** A turn that fails after the transport has opened *)

Lemma terminate_authenticate (env : AuthEnv) :
  neverDoes isTerminate (authenticate env).
Proof. unfold authenticate, sendAuthPayload. never_auto. Qed.

(** X15. When [connect] has resolved and [authenticate] then fails (no
    challenge in time, an unusable challenge, a failed write) with the
    transport still open, the turn is not abandoned abruptly: the error
    is logged as a connection error, [cleanup] detaches the observers and
    asks for a graceful close, the transport is not terminated, and,
    provided the transport emits no error once its observers are gone,
    after the backoff delay the loop goes round again. *)
Theorem failed_authentication_closes_gracefully
        (env : CycleEnv) (c c1 c2 : GrassClient) (t1 t2 : list Action)
        (e : Error)
        (Hconnected : connect (connecting env) c = (Resolve tt, c1, t1))
        (Hfailed : authenticate (authenticating env) c1 = (Reject e, c2, t2))
        (Hopen : transportOpen c2)
        (Hsilent : stray env = None) :
  iteration env c =
    (Resolve GoesRound, cleaned c2,
     ((t1 ++ t2) ++
      Log Err ("Connection error: " ++ message e)
        :: cleanupActions c2 ++ [Sleep (reconnectDelay c2)])%list)
  /\ In WsClose (trace (iteration env c))
  /\ ~ In WsTerminate (trace (iteration env c)).
Proof.
  assert (Hlife : lifecycle env c = (Reject e, c2, (t1 ++ t2)%list)).
  { rewrite lifecycle_unfold.
    rewrite (bind_Resolve _ _ _ _ _ _ Hconnected).
    now rewrite (bind_Reject_run _ _ _ _ _ _ Hfailed). }
  rewrite (iteration_caught env c _ _ _ Hlife).
  rewrite (afterBackoff_no_stray _ _ Hsilent),
    (strayTrace_no_stray _ _ Hsilent).
  split; [reflexivity|]. unfold trace. cbn [snd].
  apply isOpen_transportOpen in Hopen.
  destruct (isOpen_ws c2 Hopen) as [w Hw].
  assert (Hw' : readyState w = OPEN).
  { unfold isOpen in Hopen. rewrite Hw in Hopen.
    now apply ReadyState_eqb_eq. }
  split.
  - apply in_or_app. right. right. apply in_or_app. left.
    unfold cleanupActions. rewrite Hw, Hw'. apply in_or_app. right.
    simpl. auto.
  - intros Hin.
    assert (H1 : existsb isTerminate t1 = false).
    { destruct (existsb isTerminate t1) eqn:Hex; [|reflexivity].
      apply existsb_exists in Hex. destruct Hex as [a [Ha Hb]].
      destruct a; try discriminate.
      assert (Hin1 : In WsTerminate (trace (connect (connecting env) c)))
        by (rewrite Hconnected; exact Ha).
      destruct (connect_terminates_only_on_timeout _ _ Hin1) as [_ Hrej].
      rewrite Hconnected in Hrej. discriminate. }
    assert (H2 : existsb isTerminate t2 = false).
    { pose proof (terminate_authenticate (authenticating env) c1) as H.
      now rewrite Hfailed in H. }
    assert (H3 : existsb isTerminate (cleanupActions c2) = false).
    { unfold cleanupActions. rewrite Hw.
      destruct (heartbeatInterval c2), (readyState w); reflexivity. }
    assert (Hnone : existsb isTerminate
              ((t1 ++ t2) ++
               Log Err ("Connection error: " ++ message e)
                 :: cleanupActions c2 ++ [Sleep (reconnectDelay c2)])%list
              = false).
    { rewrite !existsb_app. cbn [existsb isTerminate].
      rewrite existsb_app, H1, H2, H3. reflexivity. }
    pose proof (existsb_In_false _ _ _ Hnone Hin). discriminate.
Qed.

(** The transport opens and no challenge arrives in 30 s. *)
Lemma failed_authentication_closes_gracefully_witness :
  iteration (mkCycleEnv (directEnv (Opened 1000)) NoChallengeInTime
                        1%nat [] true None)
            freshClient =
    (Resolve GoesRound, freshClient,
     [NewWebSocket endpoint (connectOptions freshClient None);
      SetTimeout 30000; WsOnce EvOpen; WsOnce EvError; ClearTimeout;
      Log Info "Connected via proxy: null";
      SetTimeout 30000; WsOnce EvMessage;
      Log Err "Connection error: Authentication timeout";
      WsRemoveAllListeners; WsClose; Sleep 10000]).
Proof.
  assert (Hopen : transportOpen openClient)
    by (exists (mkWebSocket OPEN); split; reflexivity).
  destruct (failed_authentication_closes_gracefully
              (mkCycleEnv (directEnv (Opened 1000)) NoChallengeInTime
                          1%nat [] true None)
              freshClient openClient openClient
              [NewWebSocket endpoint (connectOptions freshClient None);
               SetTimeout 30000; WsOnce EvOpen; WsOnce EvError;
               ClearTimeout; Log Info "Connected via proxy: null"]
              [SetTimeout 30000; WsOnce EvMessage]
              (mkError "Authentication timeout")
              eq_refl eq_refl Hopen eq_refl) as [Hrun _].
  exact Hrun.
Defined.

(** ** Nothing but the protocol is spoken *)

Lemma keeps_of_quiet {A} (m : M A) : quiet m -> keepsSettings m.
Proof. intros H c. apply H. Qed.

Lemma keeps_iteration (env : CycleEnv) : keepsSettings (iteration env).
Proof. intros c. apply iteration_turnShape. Qed.

Lemma settings_ids (c c' : GrassClient) :
  settings c' = settings c ->
  userId c' = userId c /\ browserId c' = browserId c.
Proof. unfold settings. intros [= H1 _ H3 _ _]. now split. Qed.

Lemma sp_nil {A} uid bid (m : M A) :
  (forall c, trace (m c) = []) -> speaksProtocol uid bid m.
Proof. intros H c _ _. rewrite H. constructor. Qed.

Lemma sp_emit uid bid (a : Action) :
  protocolAction uid bid a -> speaksProtocol uid bid (emit a).
Proof. intros H c _ _. apply Forall_cons; [exact H|apply Forall_nil]. Qed.

Lemma sp_bind {A B} uid bid (m : M A) (f : A -> M B) :
  keepsSettings m -> speaksProtocol uid bid m ->
  (forall a, speaksProtocol uid bid (f a)) ->
  speaksProtocol uid bid (bind m f).
Proof.
  intros Hk Hm Hf c Hu Hb. specialize (Hk c). specialize (Hm c Hu Hb).
  unfold bind. destruct (m c) as [[[a|e] c1] t1];
    unfold final, trace in *; simpl in *; [|exact Hm].
  destruct (settings_ids _ _ Hk) as [Hu1 Hb1].
  specialize (Hf a c1 ltac:(congruence) ltac:(congruence)).
  unfold trace in Hf. destruct (f a c1) as [[r c2] t2]. simpl in *.
  apply Forall_app. now split.
Qed.

Lemma sp_try_catch {A} uid bid (m : M A) (h : Error -> M A) :
  keepsSettings m -> speaksProtocol uid bid m ->
  (forall e, speaksProtocol uid bid (h e)) ->
  speaksProtocol uid bid (try_catch m h).
Proof.
  intros Hk Hm Hh c Hu Hb. specialize (Hk c). specialize (Hm c Hu Hb).
  unfold try_catch. destruct (m c) as [[[a|e] c1] t1];
    unfold final, trace in *; simpl in *; [exact Hm|].
  destruct (settings_ids _ _ Hk) as [Hu1 Hb1].
  specialize (Hh e c1 ltac:(congruence) ltac:(congruence)).
  unfold trace in Hh. destruct (h e c1) as [[r c2] t2]. simpl in *.
  apply Forall_app. now split.
Qed.

Ltac each_action tac :=
  repeat (apply Forall_cons; [simpl; first [exact I | tac]|]);
  apply Forall_nil.

Lemma sp_sendMessage uid bid (p : Value) (env : SendEnv) :
  protocolMessage uid bid p -> speaksProtocol uid bid (sendMessage p env).
Proof.
  intros Hp c _ _. rewrite sendMessage_run. unfold trace.
  destruct (isOpen c); [|constructor].
  destruct (completion env) as [[e|]|]; cbn [snd];
    each_action ltac:(exact Hp).
Qed.

Lemma sp_sendAuthPayload uid bid (authId : Value) (now : Z) (env : SendEnv) :
  speaksProtocol uid bid (sendAuthPayload authId now env).
Proof.
  intros c Hu Hb. unfold sendAuthPayload, bind, this.
  pose proof (sp_sendMessage uid bid (authPayload c authId now) env) as H.
  specialize (H ltac:(left; exists c, authId, now; auto) c Hu Hb).
  unfold trace in *.
  destruct (sendMessage (authPayload c authId now) env c) as [[r c1] t1].
  exact H.
Qed.

Lemma sp_detached uid bid (m : M unit) :
  (forall c, outcome (m c) = Resolve tt) ->
  speaksProtocol uid bid m -> speaksProtocol uid bid (detached m).
Proof.
  intros Hres Hm c Hu Hb. specialize (Hm c Hu Hb). specialize (Hres c).
  unfold detached, outcome, trace in *.
  destruct (m c) as [[[a|e] c1] t1]; simpl in *; [exact Hm|discriminate].
Qed.

Ltac keeps_solve :=
  first
    [ apply keeps_iteration
    | apply keeps_of_quiet;
      first [ apply quiet_connect | apply quiet_authenticate
            | apply quiet_startHeartbeat | apply quiet_session
            | apply quiet_cleanup | apply quiet_sendMessage
            | solve [quiet_auto] ]
    | intros ?; reflexivity
    | intros ?; apply settings_becomes ].

Ltac sp_step :=
  first
    [ apply sp_sendAuthPayload
    | apply sp_sendMessage;
      first [ right; left; eexists; reflexivity | right; right; reflexivity ]
    | apply sp_nil; intros ?; reflexivity
    | apply sp_emit; exact I
    | apply sp_bind; [keeps_solve| |intro]
    | apply sp_try_catch; [keeps_solve| |intro]
    | match goal with
      | |- speaksProtocol _ _ (liftE ?r) =>
          destruct r; apply sp_nil; intros ?; reflexivity
      | |- speaksProtocol _ _ (match ?x with _ => _ end) => destruct x
      | |- speaksProtocol _ _ (if ?b then _ else _) => destruct b
      end ].

Lemma sp_connect uid bid (env : ConnectEnv) :
  speaksProtocol uid bid (connect env).
Proof.
  intros c _ _. rewrite connect_run.
  destruct (outcome (proxyAgent env c)); [|constructor].
  cbv zeta. destruct (firstEvent env); unfold trace, opening; cbn [snd app];
    each_action idtac.
Qed.

Lemma sp_authenticate uid bid (env : AuthEnv) :
  speaksProtocol uid bid (authenticate env).
Proof. unfold authenticate. repeat sp_step. Qed.

Lemma sp_cleanup uid bid : speaksProtocol uid bid cleanup.
Proof.
  intros c _ _. rewrite cleanup_run. unfold trace, cleanupActions.
  cbn [snd].
  destruct (heartbeatInterval c), (ws c) as [[[]]|]; cbn [app];
    each_action idtac.
Qed.

Lemma sp_startHeartbeat uid bid (fresh : Timer) :
  speaksProtocol uid bid (startHeartbeat fresh).
Proof. unfold startHeartbeat. repeat sp_step. Qed.

Lemma sp_heartbeatTick uid bid (env : TickEnv) :
  speaksProtocol uid bid (heartbeatTick env).
Proof. unfold heartbeatTick, terminateIfAny. repeat sp_step. Qed.

Lemma sp_session uid bid (evs : list SessionEvent) :
  speaksProtocol uid bid (session evs).
Proof.
  induction evs as [|ev evs IH]; simpl;
    [apply sp_nil; intros ?; reflexivity|].
  apply sp_bind; [|  |intros _; exact IH].
  - destruct ev; simpl; [|intros ?; reflexivity|].
    + apply keeps_of_quiet, quiet_detached, quiet_heartbeatTick.
    + intros ?. apply settings_becomes.
  - destruct ev; simpl;
      [|apply sp_nil; intros ?; reflexivity
       |apply sp_nil; intros ?; reflexivity].
    apply sp_detached;
      [apply heartbeatTick_resolves|apply sp_heartbeatTick].
Qed.

Lemma keeps_lifecycle (env : CycleEnv) : keepsSettings (lifecycle env).
Proof. intros c. apply lifecycle_tryShape. Qed.

Lemma sp_iteration uid bid (env : CycleEnv) :
  speaksProtocol uid bid (iteration env).
Proof.
  unfold iteration.
  apply sp_try_catch; [apply keeps_lifecycle| |intros e].
  - unfold lifecycle.
    repeat first
      [ apply sp_connect | apply sp_authenticate | apply sp_startHeartbeat
      | apply sp_session | apply sp_cleanup
      | sp_step ].
  - unfold recover.
    repeat first [ apply sp_cleanup | sp_step ].
Qed.

Lemma sp_start uid bid (envs : list CycleEnv) :
  speaksProtocol uid bid (start envs).
Proof.
  induction envs as [|env rest IH]; simpl;
    [apply sp_nil; intros ?; reflexivity|].
  apply sp_bind; [apply keeps_iteration|apply sp_iteration|].
  intros [| |e]; [exact IH| |]; apply sp_nil; intros ?; reflexivity.
Qed.

(** X16. Over any run of [start], whatever the platform does, the client
    writes nothing to the transport but the three messages of the
    protocol: auth replies, each carrying the user identifier and the
    instance identifier the object was constructed with, heartbeat pings,
    and the fixed pong acknowledgment. *)
Theorem only_protocol_messages_are_sent
        (envs : list CycleEnv) (c : GrassClient) (p : Value)
        (Hsent : In (WsSend p) (trace (start envs c))) :
  (field "origin_action" p = VStr "AUTH"
   /\ field "user_id" (field "result" p) = VStr (userId c)
   /\ field "browser_id" (field "result" p) = VStr (browserId c)
   /\ field "device_type" (field "result" p) = VStr "desktop")
  \/ (exists uuid, p = pingMessage uuid)
  \/ p = pongMessage.
Proof.
  pose proof (sp_start (userId c) (browserId c) envs c eq_refl eq_refl)
    as Hall.
  rewrite Forall_forall in Hall. specialize (Hall _ Hsent). simpl in Hall.
  destruct Hall as [(c' & authId & now & Hu & Hb & ->)|[Hping|Hpong]].
  - left. simpl. rewrite Hu, Hb. repeat split.
  - right. left. exact Hping.
  - right. right. exact Hpong.
Qed.

(** The auth reply of a served session. *)
Lemma only_protocol_messages_are_sent_witness :
  field "user_id"
    (field "result" (authPayload freshClient (VStr "abc123") 2000)) =
  VStr "user-1".
Proof.
  destruct (only_protocol_messages_are_sent [served] freshClient
              (authPayload freshClient (VStr "abc123") 2000))
    as [(_ & Huser & _)|[[uuid Hping]|Hpong]].
  - simpl. auto 20.
  - exact Huser.
  - discriminate Hping.
  - discriminate Hpong.
Defined.

(** ** The timestamp a tick writes *)

(** X17. A tick whose two writes succeed stamps the clock reading it took
    before writing, whatever was observed while it wrote: a pong that the
    observer recorded in the meantime, even with a later clock reading,
    is overwritten by the tick's earlier one. *)
Theorem tick_stamps_its_own_start
        (env : TickEnv) (c : GrassClient)
        (Hopen : transportOpen c)
        (Hfresh : tick_now env - lastHeartbeat c <= 45000)
        (Hboth : bothSendsSucceed env c = true) :
  lastHeartbeat (final (heartbeatTick env c)) = tick_now env.
Proof.
  apply isOpen_transportOpen in Hopen.
  assert (Hle : (tick_now env - lastHeartbeat c >? 45000) = false)
    by (rewrite Z.gtb_ltb; apply Z.ltb_ge; lia).
  rewrite heartbeatTick_run. cbv zeta. rewrite Hopen, Hle.
  unfold bothSendsSucceed in Hboth.
  destruct (completion (first_send env)) as [[e1|]|]; try discriminate.
  destruct (completion (second_send env)) as [[e2|]|]; try discriminate.
  rewrite Hboth. reflexivity.
Qed.

(** A tick at 30 s during whose second write a pong is observed at
    31 s: the timestamp ends at 30 s. *)
Lemma tick_stamps_its_own_start_witness :
  lastHeartbeat
    (final (heartbeatTick
              (mkTickEnv 30000 "ping-1" acknowledged
                 (mkSendEnv (Completed None) [PongObserved 31000]))
              openClient)) = 30000.
Proof.
  apply (tick_stamps_its_own_start
           (mkTickEnv 30000 "ping-1" acknowledged
              (mkSendEnv (Completed None) [PongObserved 31000]))
           openClient).
  - exists (mkWebSocket OPEN). split; reflexivity.
  - simpl. lia.
  - reflexivity.
Defined.
